(** * StorageView: a shape-aware wrapper around a typed, device-tagged buffer

    Shallow embedding of [include/ctranslate2/storage_view.h].

    The header defines the templated members inline ([data<T>], [index<T>],
    [at<T>], [assign(T*, shape)], [fill], [copy_from(T*, size, device)] and
    the templated constructors); these are transcribed from the header.  The
    members that the header only declares ([size(shape)], [strides],
    [clear], [release], [reserve], [reshape], [resize], [grow], [shrink],
    [deep_copy], the destructor) have their bodies in a translation unit that
    is not part of the sources at hand; each of them is introduced below under
    a comment that starts with "Modelled from the spec".

    Conventions:
    - [size_t] is a 64-bit unsigned integer, represented in [Z] with the
      wrap-around written out ([wrap]);
    - a template argument [T] is represented by its tag
      [DataTypeToEnum<T>::value], and an element of type [T] by an integer;
    - memory is a finite map from block identifiers to arrays of cells, a
      cell being either indeterminate or holding an element;
    - overloads are told apart by name: [at_flat] and [at_indices] for
      [at<T>], [resize] and [resize_dim], [size] (static) and the field
      [_size] for [size()], [shape_stride] (static) and [stride]; the
      constructors are [StorageView_fill], [StorageView_scalar],
      [StorageView_vector] and [StorageView_buffer], the destructor is
      [destroy];
    - the [const Shape&] argument of [assign] is a reference ([shape_ref]):
      it may be the shape of the object itself, and is read when the member
      reads it;
    - [EXPECT_NEAR] of googletest converts its operands to [double]
      ([to_double]);
    - assertions are enabled (a debug build): [assert(c)] with [c] false is
      a precondition failure that aborts the call ([AssertionFailed]);
    - reading or writing outside a live block, freeing what is not the base
      of a live block and indexing a [std::vector] past its end have no
      defined behaviour ([Undefined]). *)

From Stdlib Require Import ZArith Lia.
From stdpp Require Import base option list gmap.

Local Open Scope Z_scope.

(** ** size_t arithmetic *)

Definition SIZE_BITS : Z := 64.

Definition wrap (z : Z) : Z := z mod 2 ^ SIZE_BITS.

Definition is_size_t (z : Z) : Prop := 0 <= z < 2 ^ SIZE_BITS.

(** ** Tags *)

(** [Device::CPU] and [Device::CUDA] are the two device tags the header
    names. *)
Inductive Device : Type := CPU | CUDA.

(** Modelled from the spec: the element type tag enumeration of [types.h],
    which is not part of the sources at hand.  The header names [DT_FLOAT];
    the other tags stand for the integer element types of the spec. *)
Inductive DataType : Type := DT_FLOAT | DT_INT8 | DT_INT16 | DT_INT32.

#[global] Instance Device_eq_dec : EqDecision Device.
Proof. solve_decision. Defined.

#[global] Instance DataType_eq_dec : EqDecision DataType.
Proof. solve_decision. Defined.

(** ** Memory *)

Definition value : Type := Z.
Definition cell : Type := option value.
Definition block : Type := positive.

Inductive ptr : Type :=
| nullptr
| Ptr (b : block) (off : Z).

#[global] Instance ptr_eq_dec : EqDecision ptr.
Proof. solve_decision. Defined.

(** Pointer arithmetic in elements.  Arithmetic on the null pointer yields
    a pointer that cannot be dereferenced either. *)
Definition ptr_add (p : ptr) (k : Z) : ptr :=
  match p with
  | nullptr => nullptr
  | Ptr b off => Ptr b (off + k)
  end.

(** The calls that reach the allocator and the primitive backends, in the
    order they are made. *)
Inductive call : Type :=
| Alloc (D : Device) (n : Z) (b : block)
| Free (D : Device) (b : block)
| Fill (D : Device) (dst : ptr) (v : value) (n : Z)
| Copy (D : Device) (src dst : ptr) (n : Z)
| CrossCopy (Dsrc Ddst : Device) (src dst : ptr) (n : Z).

Record machine : Type := Machine {
  heap : gmap block (list cell);
  calls : list call
}.

Definition load (h : gmap block (list cell)) (p : ptr) : option cell :=
  match p with
  | nullptr => None
  | Ptr b off =>
      if decide (0 <= off) then
        match h !! b with
        | Some l => l !! Z.to_nat off
        | None => None
        end
      else None
  end.

(** [n] consecutive cells starting at [p]; an empty range is readable from
    any pointer. *)
Definition read_cells (h : gmap block (list cell)) (p : ptr) (n : Z)
  : option (list cell) :=
  if decide (n = 0) then Some []
  else match p with
       | nullptr => None
       | Ptr b off =>
           match h !! b with
           | Some l =>
               if decide (0 <= off /\ 0 <= n /\ off + n <= Z.of_nat (length l))
               then Some (take (Z.to_nat n) (drop (Z.to_nat off) l))
               else None
           | None => None
           end
       end.

Definition splice (l : list cell) (off : nat) (cs : list cell) : list cell :=
  take off l ++ cs ++ drop (off + length cs)%nat l.

Definition write_cells (h : gmap block (list cell)) (p : ptr) (cs : list cell)
  : option (gmap block (list cell)) :=
  match cs with
  | [] => Some h
  | _ :: _ =>
      match p with
      | nullptr => None
      | Ptr b off =>
          match h !! b with
          | Some l =>
              if decide (0 <= off /\ off + Z.of_nat (length cs) <= Z.of_nat (length l))
              then Some (<[b := splice l (Z.to_nat off) cs]> h)
              else None
          | None => None
          end
      end
  end.

(** ** Outcomes and the state monad of the member functions *)

Inductive result (A : Type) : Type :=
| Ok (a : A)
| AssertionFailed
| Undefined.

Arguments Ok {A} a.
Arguments AssertionFailed {A}.
Arguments Undefined {A}.

Definition rbind {A B : Type} (r : result A) (k : A -> result B) : result B :=
  match r with
  | Ok a => k a
  | AssertionFailed => AssertionFailed
  | Undefined => Undefined
  end.

(** [assert(c)] in a [const] member. *)
Definition rassert (c : bool) : result unit :=
  if c then Ok tt else AssertionFailed.

Notation "'let?' x := r 'in' k" := (rbind r (fun x => k))
  (at level 10, x name, r at level 100, k at level 200).

Definition M (A : Type) : Type := machine -> result (A * machine).

Definition ret {A : Type} (a : A) : M A := fun m => Ok (a, m).

Definition bind {A B : Type} (c : M A) (k : A -> M B) : M B :=
  fun m =>
    match c m with
    | Ok (a, m') => k a m'
    | AssertionFailed => AssertionFailed
    | Undefined => Undefined
    end.

Definition lift {A : Type} (r : result A) : M A :=
  fun m =>
    match r with
    | Ok a => Ok (a, m)
    | AssertionFailed => AssertionFailed
    | Undefined => Undefined
    end.

Definition assert (c : bool) : M unit := lift (rassert c).

Definition undefined {A : Type} : M A := fun _ => Undefined.

(** [do x <- c in k] runs [c], binds its value and goes on with [k];
    [run c in k] runs [c] for its effect. *)
Notation "'do' x <- c1 'in' c2" := (bind c1 (fun x => c2))
  (at level 10, x name, c1 at level 100, c2 at level 200).
Notation "'run' c1 'in' c2" := (bind c1 (fun _ => c2))
  (at level 10, c1 at level 100, c2 at level 200).

(** ** The allocator and the primitive backends *)

(** Modelled from the spec: the allocation path, which is not part of the
    sources at hand.  An allocation yields a block that is not live yet, with
    exactly [n] cells, all of them indeterminate; the 64-byte alignment of its
    address is a matter of memory layout and is not represented. *)
Definition alloc_data (D : Device) (n : Z) : M ptr :=
  fun m =>
    let b := fresh (dom (heap m)) in
    Ok (Ptr b 0,
        {| heap := <[b := replicate (Z.to_nat n) None]> (heap m);
           calls := calls m ++ [Alloc D n b] |}).

(** Modelled from the spec: the release of an owned allocation, which is not
    part of the sources at hand either.  Freeing is defined for the base
    pointer of a live block only; the block is dead afterwards. *)
Definition free_data (D : Device) (p : ptr) : M unit :=
  fun m =>
    match p with
    | Ptr b 0 =>
        match heap m !! b with
        | Some _ => Ok (tt, {| heap := delete b (heap m);
                               calls := calls m ++ [Free D b] |})
        | None => Undefined
        end
    | _ => Undefined
    end.

(** Modelled from the spec: the primitive backend contract
    [fill(ptr, value, count)], [copy(src_ptr, dst_ptr, count)] per device tag,
    and the cross-device [copy(src_ptr, dst_ptr, count)] per ordered pair of
    device tags ([primitives/primitives.h] is not part of the sources at
    hand). *)
Module primitives.

(** Modelled from the spec: [fill(ptr, value, count)] sets [count] elements
    from [ptr] on to [value]. *)
Definition fill (D : Device) (x : ptr) (a : value) (n : Z) : M unit :=
  fun m =>
    match write_cells (heap m) x (replicate (Z.to_nat n) (Some a)) with
    | Some h => Ok (tt, {| heap := h; calls := calls m ++ [Fill D x a n] |})
    | None => Undefined
    end.

(** Modelled from the spec: [copy(src_ptr, dst_ptr, count)] on one device
    copies [count] elements from [src_ptr] to [dst_ptr]. *)
Definition copy (D : Device) (x y : ptr) (n : Z) : M unit :=
  fun m =>
    match read_cells (heap m) x n with
    | Some cs =>
        match write_cells (heap m) y cs with
        | Some h => Ok (tt, {| heap := h; calls := calls m ++ [Copy D x y n] |})
        | None => Undefined
        end
    | None => Undefined
    end.

(** Modelled from the spec: [deref(ptr, offset)], the device-aware read of
    a single element.  Outside a live block, and at an indeterminate cell,
    there is no value to read. *)
Definition deref (D : Device) (x : ptr) (index : Z) : M value :=
  fun m =>
    match load (heap m) (ptr_add x index) with
    | Some (Some v) => Ok (v, m)
    | _ => Undefined
    end.

End primitives.

Module cross_device_primitives.

(** Modelled from the spec: the cross-device [copy(src_ptr, dst_ptr, count)]
    from device [D1] to device [D2]. *)
Definition copy (D1 D2 : Device) (x y : ptr) (n : Z) : M unit :=
  fun m =>
    match read_cells (heap m) x n with
    | Some cs =>
        match write_cells (heap m) y cs with
        | Some h =>
            Ok (tt, {| heap := h; calls := calls m ++ [CrossCopy D1 D2 x y n] |})
        | None => Undefined
        end
    | None => Undefined
    end.

End cross_device_primitives.

(** Modelled from the spec: [DEVICE_DISPATCH(device, stmt)], a direct call
    selected by a switch on the runtime device tag, with [D] bound to the
    selected tag in [stmt]. *)
Definition DEVICE_DISPATCH {A : Type} (device : Device) (stmt : Device -> M A)
  : M A :=
  match device with
  | CPU => stmt CPU
  | CUDA => stmt CUDA
  end.

(** ** The class *)

(** [using Shape = std::vector<size_t>] *)
Abbreviation Shape := (list Z).

Record StorageView : Type := mkStorageView {
  _dtype : DataType;
  _device : Device;
  _data : ptr;
  _own_data : bool;
  _allocated_size : Z;
  _size : Z;
  _shape : Shape;
  _strides : list Z
}.

(** The member initializers of the class: [DT_FLOAT], [CPU], [nullptr],
    owning, no capacity, no element, empty shape; the constructors override
    the two tags. *)
Definition init (dtype : DataType) (device : Device) : StorageView :=
  {| _dtype := dtype; _device := device; _data := nullptr; _own_data := true;
     _allocated_size := 0; _size := 0; _shape := []; _strides := [] |}.

(** *** Shape arithmetic *)

Definition product (l : list Z) : Z := foldr Z.mul 1 l.

(** Modelled from the spec: the static helper [size(const Shape&)], declared
    in the header and defined elsewhere.  The logical size is the product of
    the dimensions, computed in [size_t]; rank 0 is reserved for the empty
    buffer, whose logical size is 0 ([clear] sets the size to 0 and the shape
    to the empty sequence). *)
Definition size (shape : Shape) : Z :=
  match shape with
  | [] => 0
  | _ :: _ => wrap (product shape)
  end.

(** Modelled from the spec: the static helper [stride(shape, dim)], declared
    in the header and defined elsewhere: row-major contiguous layout,
    stride[i] = product(shape[i+1..end]), computed in [size_t]. *)
Definition shape_stride (shape : Shape) (dim : nat) : Z :=
  wrap (product (drop (S dim) shape)).

(** Modelled from the spec: [strides(shape)], one stride per dimension. *)
Definition strides (shape : Shape) : list Z :=
  map (shape_stride shape) (seq 0 (length shape)).

(** *** Accessors *)

Definition rank (sv : StorageView) : Z := Z.of_nat (length (_shape sv)).

Definition shape (sv : StorageView) : Shape := _shape sv.

(** Modelled from the spec: the index that [dim(i)] and [stride(i)] read for
    the signed index [i]; a negative index counts from the end. *)
Definition from_end (n : nat) (i : Z) : Z :=
  if i <? 0 then Z.of_nat n + i else i.

(** [v[i]] for a [std::vector<size_t>]; past the end it is undefined. *)
Definition vector_at (v : list Z) (i : Z) : result Z :=
  if decide (0 <= i) then
    match v !! Z.to_nat i with
    | Some x => Ok x
    | None => Undefined
    end
  else Undefined.

(** Modelled from the spec: [dim(ssize_t)], declared in the header and
    defined elsewhere. *)
Definition dim (i : Z) (sv : StorageView) : result Z :=
  vector_at (_shape sv) (from_end (length (_shape sv)) i).

(** Modelled from the spec: [stride(ssize_t)], declared in the header and
    defined elsewhere. *)
Definition stride (i : Z) (sv : StorageView) : result Z :=
  vector_at (_strides sv) (from_end (length (_shape sv)) i).

(** *** Members whose bodies are outside the header *)

(** Modelled from the spec: [clear()] sets the logical size to 0 and the
    shape to the empty sequence, and keeps the buffer and its capacity. *)
Definition clear (sv : StorageView) : StorageView :=
  {| _dtype := _dtype sv; _device := _device sv; _data := _data sv;
     _own_data := _own_data sv; _allocated_size := _allocated_size sv;
     _size := 0; _shape := []; _strides := strides [] |}.

(** Modelled from the spec: the buffer this object is the releaser of, if
    any: an owned buffer; a borrowed buffer is never freed by the object. *)
Definition owned_buffer (sv : StorageView) : option ptr :=
  if _own_data sv && bool_decide (_data sv <> nullptr) then Some (_data sv)
  else None.

(** Modelled from the spec: freeing the owned buffer, shared by [release],
    the destructor and reallocation. *)
Definition free_owned (sv : StorageView) : M unit :=
  match owned_buffer sv with
  | Some p => free_data (_device sv) p
  | None => ret tt
  end.

(** Modelled from the spec: [release()] frees an owned buffer (nothing is
    freed when the buffer is borrowed) and resets capacity, size and shape to
    empty. *)
Definition release (sv : StorageView) : M StorageView :=
  run free_owned sv in
  ret (clear {| _dtype := _dtype sv; _device := _device sv; _data := nullptr;
                _own_data := _own_data sv; _allocated_size := 0;
                _size := _size sv; _shape := _shape sv;
                _strides := _strides sv |}).

(** Modelled from the spec: the destructor releases owned memory and does
    nothing for borrowed memory. *)
Definition destroy (sv : StorageView) : M unit := free_owned sv.

(** Modelled from the spec: reallocation replaces the owned buffer by a new
    owned buffer of exactly [n] elements, whose contents are not those of the
    old one.  A borrowed buffer is never reallocated: asking for it is a
    caller error. *)
Definition reallocate (n : Z) (sv : StorageView) : M StorageView :=
  if _own_data sv then
    run free_owned sv in
    do p <- alloc_data (_device sv) n in
    ret {| _dtype := _dtype sv; _device := _device sv; _data := p;
           _own_data := true; _allocated_size := n;
           _size := _size sv; _shape := _shape sv; _strides := _strides sv |}
  else undefined.

(** Modelled from the spec: [reserve(capacity)] ensures that the allocated
    capacity is at least [capacity], reallocating if needed; the contents are
    discarded. *)
Definition reserve (capacity : Z) (sv : StorageView) : M StorageView :=
  if capacity <=? _allocated_size sv then ret sv
  else reallocate capacity sv.

(** Modelled from the spec: [reshape(new_shape)] requires
    product(new_shape) == logical size and recomputes the strides only. *)
Definition reshape (new_shape : Shape) (sv : StorageView) : result StorageView :=
  let? _ := rassert (bool_decide (_size sv = size new_shape)) in
  Ok {| _dtype := _dtype sv; _device := _device sv; _data := _data sv;
        _own_data := _own_data sv; _allocated_size := _allocated_size sv;
        _size := _size sv; _shape := new_shape; _strides := strides new_shape |}.

(** [_size = n] *)
Definition set_size (n : Z) (sv : StorageView) : StorageView :=
  {| _dtype := _dtype sv; _device := _device sv; _data := _data sv;
     _own_data := _own_data sv; _allocated_size := _allocated_size sv;
     _size := n; _shape := _shape sv; _strides := _strides sv |}.

(** Modelled from the spec: [resize(new_shape)] sets the logical size to
    product(new_shape); if it exceeds the capacity a new owned buffer of
    exactly the new size is allocated, otherwise the buffer is reused; then
    shape and strides are updated. *)
Definition resize (new_shape : Shape) (sv : StorageView) : M StorageView :=
  let new_size := size new_shape in
  do sv1 <- (if _allocated_size sv <? new_size then reallocate new_size sv
             else ret sv) in
  lift (reshape new_shape (set_size new_size sv1)).

(** Modelled from the spec: [resize(dim, new_size)] rebuilds the shape with
    one dimension replaced and resizes. *)
Definition resize_dim (d : Z) (new_size : Z) (sv : StorageView) : M StorageView :=
  do _old <- lift (vector_at (_shape sv) d) in
  resize (<[Z.to_nat d := new_size]> (_shape sv)) sv.

(** Modelled from the spec: [grow(dim, extra)] adjusts one dimension by a
    delta, in [size_t], and resizes. *)
Definition grow (d : Z) (extra : Z) (sv : StorageView) : M StorageView :=
  do old <- lift (vector_at (_shape sv) d) in
  resize_dim d (wrap (old + extra)) sv.

(** Modelled from the spec: [shrink(dim, amount)] adjusts one dimension by a
    delta, in [size_t], and resizes. *)
Definition shrink (d : Z) (amount : Z) (sv : StorageView) : M StorageView :=
  do old <- lift (vector_at (_shape sv) d) in
  resize_dim d (wrap (old - amount)) sv.

(** *** Members defined in the header *)

(** [template <typename T> T* data()] *)
Definition data (T : DataType) (sv : StorageView) : result ptr :=
  let? _ := rassert (bool_decide (T = _dtype sv)) in
  Ok (_data sv).

(** The loop of [index]: [rest] holds [indices[i..]], and [_strides[i]] past
    the end of [_strides] is out of the vector. *)
Fixpoint index_loop (strides_ : list Z) (i : nat) (rest : list Z) (offset : Z)
  : result Z :=
  match rest with
  | [] => Ok offset
  | x :: rest' =>
      match strides_ !! i with
      | Some s => index_loop strides_ (S i) rest' (wrap (offset + wrap (x * s)))
      | None => Undefined
      end
  end.

(** [template <typename T> const T* index(const std::vector<size_t>&) const] *)
Definition index (T : DataType) (indices : list Z) (sv : StorageView)
  : result ptr :=
  let? _ := rassert (bool_decide (T = _dtype sv)) in
  let? offset := index_loop (_strides sv) 0 indices 0 in
  let? _ := rassert (bool_decide (offset < _size sv)) in
  let? p := data T sv in
  Ok (ptr_add p offset).

(** [template <typename T> const T& at(size_t index) const]; the reference
    is represented by the address of the element. *)
Definition at_flat (T : DataType) (i : Z) (sv : StorageView) : result ptr :=
  let? _ := rassert (bool_decide (i < _size sv)) in
  let? p := data T sv in
  Ok (ptr_add p i).

(** [template <typename T> const T& at(const std::vector<size_t>&) const] *)
Definition at_indices (T : DataType) (indices : list Z) (sv : StorageView)
  : result ptr :=
  let? p := index T indices sv in
  Ok (ptr_add p 0).

(** A [const Shape&] argument of [assign]: a reference to a vector that is
    no part of the object, or a reference to the [_shape] of the object the
    member is called on (as in [sv.assign(p, sv.shape())]).  The reference
    is read when the member reads it, with the value the vector has then. *)
Inductive shape_ref : Type :=
| a_shape (s : Shape)
| this_shape.

Definition read_shape (r : shape_ref) (sv : StorageView) : Shape :=
  match r with
  | a_shape s => s
  | this_shape => _shape sv
  end.

(** [template <typename T> StorageView& assign(T* data, const Shape& shape)];
    [shape] is read after [release()], twice. *)
Definition assign (T : DataType) (data_ : ptr) (shape_ : shape_ref)
  (sv : StorageView) : M StorageView :=
  run assert (bool_decide (T = _dtype sv)) in
  do sv1 <- release sv in
  let sv2 :=
    {| _dtype := _dtype sv1; _device := _device sv1; _data := data_;
       _own_data := false; _allocated_size := size (read_shape shape_ sv1);
       _size := size (read_shape shape_ sv1);
       _shape := _shape sv1; _strides := _strides sv1 |} in
  lift (reshape (read_shape shape_ sv2) sv2).

(** [template <typename T> StorageView& fill(T value)] *)
Definition fill (T : DataType) (v : value) (sv : StorageView) : M StorageView :=
  run assert (bool_decide (T = _dtype sv)) in
  run DEVICE_DISPATCH (_device sv) (fun D =>
        do p <- lift (data T sv) in
        primitives.fill D p v (_size sv)) in
  ret sv.

(** [template <typename T>
     StorageView& copy_from(const T* data, size_t size, Device device)].
    [WITH_CUDA] tells whether the preprocessor symbol of that name is defined
    in the build: the cross-device branch is compiled under [#ifdef WITH_CUDA]
    only. *)
Definition copy_from (WITH_CUDA : bool) (T : DataType) (data_ : ptr) (size_ : Z)
  (device : Device) (sv : StorageView) : M StorageView :=
  run assert (bool_decide (T = _dtype sv)) in
  run assert (bool_decide (size_ = _size sv)) in
  run (if WITH_CUDA && bool_decide (device <> _device sv) then
         do p <- lift (data T sv) in
         if bool_decide (device = CUDA)
         then cross_device_primitives.copy CUDA CPU data_ p size_
         else cross_device_primitives.copy CPU CUDA data_ p size_
       else
         DEVICE_DISPATCH device (fun D =>
           do p <- lift (data T sv) in
           primitives.copy D data_ p size_)) in
  ret sv.

(** The shape that [assign] reads through its reference: [release()] has
    emptied the shape of the object by then. *)
Definition shape_read_by_assign (r : shape_ref) : Shape :=
  match r with
  | a_shape s => s
  | this_shape => []
  end.

(** A [std::vector<T>] argument: its storage and its number of elements. *)
Record vector : Type := Vector { vector_data : ptr; vector_size : Z }.

(** [StorageView(const Shape& shape, T init = T(), Device device = CPU)] *)
Definition StorageView_fill (shape_ : Shape) (T : DataType) (init_ : value)
  (device : Device) : M StorageView :=
  do sv <- resize shape_ (init T device) in
  fill T init_ sv.

(** [StorageView(T scalar, Device device = CPU)] *)
Definition StorageView_scalar (T : DataType) (scalar : value) (device : Device)
  : M StorageView :=
  do sv <- resize [1] (init T device) in
  fill T scalar sv.

(** [StorageView(const Shape& shape, const std::vector<T>& init,
                 Device device = CPU)]: create from a std::vector (copy). *)
Definition StorageView_vector (WITH_CUDA : bool) (shape_ : Shape) (T : DataType)
  (init_ : vector) (device : Device) : M StorageView :=
  do sv <- resize shape_ (init T device) in
  copy_from WITH_CUDA T (vector_data init_) (vector_size init_) CPU sv.

(** [StorageView(const Shape& shape, T* data, Device device = CPU)]: create
    from a buffer (no copy).  The shape argument cannot refer to the shape of
    the object under construction. *)
Definition StorageView_buffer (shape_ : Shape) (T : DataType) (data_ : ptr)
  (device : Device) : M StorageView :=
  assign T data_ (a_shape shape_) (init T device).

(** Modelled from the spec: the allocation of a new owned buffer of [n]
    elements on the device of the object. *)
Definition allocate_owned (n : Z) (sv : StorageView) : M StorageView :=
  do p <- alloc_data (_device sv) n in
  ret {| _dtype := _dtype sv; _device := _device sv; _data := p;
         _own_data := true; _allocated_size := n;
         _size := _size sv; _shape := _shape sv; _strides := _strides sv |}.

(** Modelled from the spec: assignment from a copy source is [deep_copy],
    which allocates a new owned buffer and copies all the elements of the
    source into it, through the same-device or the cross-device copy. *)
Definition deep_copy (WITH_CUDA : bool) (other : StorageView) (sv : StorageView)
  : M StorageView :=
  do sv1 <- release sv in
  do sv2 <- allocate_owned (size (_shape other)) sv1 in
  do sv3 <- lift (reshape (_shape other) (set_size (size (_shape other)) sv2)) in
  copy_from WITH_CUDA (_dtype other) (_data other) (_size other) (_device other) sv3.

(** *** The mutating operations, as one datatype *)

Inductive mutator : Type :=
| Resize (new_shape : Shape)
| ResizeDim (d new_size : Z)
| Grow (d extra : Z)
| Shrink (d amount : Z)
| Reshape (new_shape : Shape)
| Clear
| Release
| Reserve (capacity : Z)
| Assign (T : DataType) (data_ : ptr) (shape_ : shape_ref)
| CopyAssign (other : StorageView).

Definition apply (WITH_CUDA : bool) (op : mutator) (sv : StorageView)
  : M StorageView :=
  match op with
  | Resize s => resize s sv
  | ResizeDim d n => resize_dim d n sv
  | Grow d n => grow d n sv
  | Shrink d n => shrink d n sv
  | Reshape s => lift (reshape s sv)
  | Clear => ret (clear sv)
  | Release => release sv
  | Reserve n => reserve n sv
  | Assign T p s => assign T p s sv
  | CopyAssign other => deep_copy WITH_CUDA other sv
  end.

(** The class invariant on sizes. *)
Definition size_invariant (sv : StorageView) : Prop :=
  _size sv = size (_shape sv) /\ _size sv <= _allocated_size sv.

(** The flat offset of an index vector, as an integer:
    the sum over i of indices[i] * strides[i]. *)
Definition flat_offset (indices strides_ : list Z) : Z :=
  foldr Z.add 0 (zip_with Z.mul indices strides_).

(** ** Auxiliary predicates and example states *)

(** A view of shape [2, 3] over six floats, as the shaped-with-fill-value
    constructor builds it in an empty memory. *)
Definition empty_machine : machine := {| heap := ∅; calls := [] |}.

Definition view_2x3 : StorageView :=
  {| _dtype := DT_FLOAT; _device := CPU; _data := Ptr 1%positive 0;
     _own_data := true; _allocated_size := 6; _size := 6;
     _shape := [2; 3]; _strides := [3; 1] |}.

Definition machine_2x3 : machine :=
  {| heap := {[ 1%positive := replicate 6 (Some 1) ]};
     calls := [Alloc CPU 6 1%positive; Fill CPU (Ptr 1%positive 0) 1 6] |}.

(** A range of [n] cells at [p] lies within a live block. *)
Definition valid_range (h : gmap block (list cell)) (p : ptr) (n : Z) : Prop :=
  n = 0 \/
  exists b off l, p = Ptr b off /\ h !! b = Some l /\
                  0 <= off /\ 0 < n /\ off + n <= Z.of_nat (length l).

(** [q] points into the [n] cells at [p]. *)
Definition in_range (p : ptr) (n : Z) (q : ptr) : Prop :=
  match p, q with
  | Ptr b off, Ptr b' off' => b = b' /\ off <= off' < off + n
  | _, _ => False
  end.

(** A view of shape [2, 2] whose buffer is block 1, and a source array of
    four elements in block 2. *)
Definition view_2x2 (device : Device) : StorageView :=
  {| _dtype := DT_FLOAT; _device := device; _data := Ptr 1%positive 0;
     _own_data := true; _allocated_size := 4; _size := 4;
     _shape := [2; 2]; _strides := [2; 1] |}.

Definition machine_2x2 : machine :=
  {| heap := <[ 2%positive := [Some 7; Some 8; Some 9; Some 10] ]>
               {[ 1%positive := replicate 4 (Some 1) ]};
     calls := [] |}.

(** The same buffer, borrowed by an object tagged CUDA. *)
Definition borrowed_2x2 : StorageView :=
  {| _dtype := DT_FLOAT; _device := CUDA; _data := Ptr 1%positive 0;
     _own_data := false; _allocated_size := 4; _size := 4;
     _shape := [2; 2]; _strides := [2; 1] |}.

(** The routing stated without regard to the build: a source device other
    than the object's device always selects the cross-device copy. *)
Definition copy_from_routes_by_device_only : Prop :=
  forall WITH_CUDA T src n device sv m sv' m',
    copy_from WITH_CUDA T src n device sv m = Ok (sv', m') ->
    (device <> _device sv ->
     calls m' = calls m ++ [CrossCopy device (_device sv) src (_data sv) n]) /\
    (device = _device sv ->
     calls m' = calls m ++ [Copy (_device sv) src (_data sv) n]).

(** Reading the element at a flat offset through the reference that
    [at<T>(index)] returns. *)
Definition element_at (T : DataType) (k : Z) (sv : StorageView) : M cell :=
  do p <- lift (at_flat T k sv) in
  fun m =>
    match load (heap m) p with
    | Some c => Ok (c, m)
    | None => Undefined
    end.

(** What an object has to free is the base of a live block. *)
Definition releasable (m : machine) (sv : StorageView) : Prop :=
  match owned_buffer sv with
  | Some p => exists b, p = Ptr b 0 /\ is_Some (heap m !! b)
  | None => True
  end.

(** An external array of six floats in block 2, next to the buffer of
    [view_2x3]. *)
Definition machine_external : machine :=
  {| heap := <[ 2%positive := replicate 6 (Some 5) ]> (heap machine_2x3);
     calls := [] |}.

(** The shrink part of the resize claim stated without a condition on the
    amount: [shrink] never reallocates. *)
Definition shrink_never_reallocates : Prop :=
  forall d amount sv m sv' m',
    _own_data sv = true -> releasable m sv -> size_invariant sv ->
    shrink d amount sv m = Ok (sv', m') ->
    _data sv' = _data sv /\
    _allocated_size sv' = _allocated_size sv /\
    calls m' = calls m.

(** The routing of the constructor stated without regard to the build: an
    accelerator buffer is always filled through the cross-device copy. *)
Definition vector_constructor_routes_by_device_only : Prop :=
  forall WITH_CUDA shape_ T init_ device m sv m',
    StorageView_vector WITH_CUDA shape_ T init_ device m = Ok (sv, m') ->
    (device = CUDA ->
     last (calls m')
     = Some (CrossCopy CPU CUDA (vector_data init_) (_data sv)
               (vector_size init_))) /\
    (device = CPU ->
     last (calls m')
     = Some (Copy CPU (vector_data init_) (_data sv) (vector_size init_))).

(** A machine that holds a [std::vector] of two elements in block 1. *)
Definition machine_vector : machine :=
  {| heap := {[ 1%positive := [Some 7; Some 8] ]}; calls := [] |}.

Definition vector_7_8 : vector :=
  {| vector_data := Ptr 1%positive 0; vector_size := 2 |}.

(** An empty [std::vector]. *)
Definition vector_empty : vector :=
  {| vector_data := nullptr; vector_size := 0 |}.

(** ** Further members of the class *)

(** [template <typename T> T scalar_at(const std::vector<size_t>&) const] *)
Definition scalar_at (T : DataType) (indices : list Z) (sv : StorageView)
  : M value :=
  DEVICE_DISPATCH (_device sv) (fun D =>
    do p <- lift (index T indices sv) in
    primitives.deref D p 0).

(** Each index is below its dimension. *)
Definition in_shape (indices : list Z) (shape_ : Shape) : Prop :=
  Forall2 (fun i d => 0 <= i < d) indices shape_.

(** The array at [x] holds the elements [xs]. *)
Definition holds (h : gmap block (list cell)) (x : ptr) (xs : list value)
  : Prop :=
  forall (k : nat) (a : value),
    xs !! k = Some a -> load h (ptr_add x (Z.of_nat k)) = Some (Some a).

(** ** The comparison helpers of the tests ([tests/test_utils.h])

    The helpers are written with the googletest macros: [EXPECT_*] records a
    failure and goes on, [ASSERT_*] records a failure and returns from the
    function it is written in.  A run is represented by the failures it
    records, in order; each failure carries the message streamed into it. *)

Inductive failure : Type :=
| ValueMismatchAt (i : Z)
| AbsoluteDifferenceAt (abs_diff : Z) (i : Z)
| SizeMismatch (got expected : Z)
| DimensionMismatch (i : Z).

(** [x[i]] for an array in memory. *)
Definition read (h : gmap block (list cell)) (p : ptr) : result value :=
  match load h p with
  | Some (Some v) => Ok v
  | _ => Undefined
  end.

(** The conversion of an integer to [double], given as the integer that the
    double holds: round to nearest, ties to even, with a significand of 53
    bits.  The values of an integer element type have at most 64 bits, far
    below the range of a double, so the result is finite. *)
Definition to_double (z : Z) : Z :=
  let a := Z.abs z in
  if a <? 2 ^ 53 then z
  else
    let e := Z.log2 a - 52 in
    let q := a / 2 ^ e in
    let r := a mod 2 ^ e in
    let half := 2 ^ (e - 1) in
    let q' := if (half <? r) || ((r =? half) && Z.odd q) then q + 1 else q in
    Z.sgn z * (q' * 2 ^ e).

(** [EXPECT_NEAR(val1, val2, abs_error)]: the three operands are taken as
    doubles, and the comparison succeeds when [fabs(val1 - val2) <= abs_error],
    the difference being the double nearest to the exact one. *)
Definition near (val1 val2 : value) (abs_error : Z) : bool :=
  Z.abs (to_double (to_double val1 - to_double val2)) <=? to_double abs_error.

(** The body of the loop of [expect_array_eq]: [EXPECT_EQ(x[i], y[i])] when
    [abs_diff == 0], [EXPECT_NEAR(x[i], y[i], abs_diff)] otherwise. *)
Definition expect_element (abs_diff : Z) (i : Z) (xi yi : value)
  : list failure :=
  if decide (abs_diff = 0) then
    if decide (xi = yi) then [] else [ValueMismatchAt i]
  else
    if near xi yi abs_diff then []
    else [AbsoluteDifferenceAt abs_diff i].

(** The loop of [expect_array_eq], from index [i], with [remaining]
    iterations to go. *)
Fixpoint expect_array_eq_loop (h : gmap block (list cell)) (x y : ptr)
  (abs_diff : Z) (i : Z) (remaining : nat) : result (list failure) :=
  match remaining with
  | O => Ok []
  | S r =>
      let? xi := read h (ptr_add x i) in
      let? yi := read h (ptr_add y i) in
      let? rest := expect_array_eq_loop h x y abs_diff (i + 1) r in
      Ok (expect_element abs_diff i xi yi ++ rest)
  end.

(** [template <typename T>
     void expect_array_eq(const T* x, const T* y, size_t n, T abs_diff = 0)],
    for an element type whose values are integers. *)
Definition expect_array_eq (h : gmap block (list cell)) (x y : ptr) (n : Z)
  (abs_diff : Z) : result (list failure) :=
  expect_array_eq_loop h x y abs_diff 0 (Z.to_nat n).

(** The failures that the comparison of the elements at index [k] of two
    arrays holding [xs] and [ys] records. *)
Definition element_failures (abs_diff : Z) (xs ys : list value) (k : nat)
  : list failure :=
  match xs !! k, ys !! k with
  | Some a, Some b => expect_element abs_diff (Z.of_nat k) a b
  | _, _ => []
  end.

(** The two arrays differ at index [k]. *)
Definition differs_at (xs ys : list value) (k : nat) : bool :=
  match xs !! k, ys !! k with
  | Some a, Some b => negb (bool_decide (a = b))
  | _, _ => false
  end.

(** The elements at index [k] are not near each other, as [EXPECT_NEAR]
    sees them. *)
Definition far_at (abs_diff : Z) (xs ys : list value) (k : nat) : bool :=
  match xs !! k, ys !! k with
  | Some a, Some b => negb (near a b abs_diff)
  | _, _ => false
  end.

(** Two elements differ by more than [abs_diff], as exact integers. *)
Definition exceeds (abs_diff : Z) (a b : value) : bool :=
  abs_diff <? Z.abs (a - b).

(** The elements at index [k] differ by more than [abs_diff]. *)
Definition exceeds_at (abs_diff : Z) (xs ys : list value) (k : nat) : bool :=
  match xs !! k, ys !! k with
  | Some a, Some b => exceeds abs_diff a b
  | _, _ => false
  end.

(** An integer that a double holds exactly, with room for one subtraction:
    every value of an element type of at most 52 bits. *)
Definition exact_in_double (v : Z) : Prop := Z.abs v < 2 ^ 52.

(** The loop of [assert_vector_eq], from index [i]: the first mismatch ends
    the function. *)
Fixpoint assert_vector_eq_loop (got expected : list Z) (i : nat)
  (remaining : nat) : result (list failure) :=
  match remaining with
  | O => Ok []
  | S r =>
      match got !! i, expected !! i with
      | Some a, Some b =>
          if decide (a = b) then assert_vector_eq_loop got expected (S i) r
          else Ok [DimensionMismatch (Z.of_nat i)]
      | _, _ => Undefined
      end
  end.

(** [template <typename T>
     void assert_vector_eq(const std::vector<T>& got,
                           const std::vector<T>& expected)] *)
Definition assert_vector_eq (got expected : list Z) : result (list failure) :=
  if decide (length got = length expected) then
    assert_vector_eq_loop got expected 0 (length got)
  else Ok [SizeMismatch (Z.of_nat (length got)) (Z.of_nat (length expected))].

(** * Properties *)

(** ** size_t arithmetic *)

Lemma wrap_range z : is_size_t (wrap z).
Proof. unfold is_size_t, wrap. apply Z.mod_pos_bound. unfold SIZE_BITS. lia. Qed.

Lemma wrap_small z : is_size_t z -> wrap z = z.
Proof. unfold is_size_t, wrap. intros H. apply Z.mod_small. exact H. Qed.

Lemma wrap_add_l a b : wrap (wrap a + b) = wrap (a + b).
Proof. unfold wrap. apply Zplus_mod_idemp_l. Qed.

Lemma wrap_add_r a b : wrap (a + wrap b) = wrap (a + b).
Proof. unfold wrap. apply Zplus_mod_idemp_r. Qed.

Lemma size_range s : is_size_t (size s).
Proof.
  destruct s as [|d s]; simpl.
  - unfold is_size_t, SIZE_BITS. lia.
  - apply wrap_range.
Qed.

Lemma product_nonneg l : Forall (fun d => 0 <= d) l -> 0 <= product l.
Proof.
  induction 1 as [|d l Hd _ IH]; simpl; [lia|].
  apply Z.mul_nonneg_nonneg; assumption.
Qed.

Lemma flat_offset_nonneg indices strides_ :
  Forall (fun x => 0 <= x) indices -> Forall (fun x => 0 <= x) strides_ ->
  0 <= flat_offset indices strides_.
Proof.
  intros Hi. revert strides_.
  induction Hi as [|x indices Hx _ IH]; intros strides_ Hs; [cbn; lia|].
  destruct Hs as [|s strides_ Hs0 Hs]; [cbn; lia|].
  unfold flat_offset. cbn. fold (flat_offset indices strides_).
  specialize (IH _ Hs). nia.
Qed.

(** ** Outcomes *)

Lemma bind_Ok {A B : Type} (c : M A) (k : A -> M B) m r :
  bind c k m = Ok r -> exists a m1, c m = Ok (a, m1) /\ k a m1 = Ok r.
Proof.
  unfold bind. destruct (c m) as [[a m1]| |]; [|discriminate..].
  intros H. exists a, m1. split; [reflexivity|exact H].
Qed.

Lemma lift_Ok {A : Type} (r : result A) m x :
  lift r m = Ok x -> exists a, r = Ok a /\ x = (a, m).
Proof.
  unfold lift. destruct r as [a| |]; [|discriminate..].
  intros [= <-]. exists a. split; reflexivity.
Qed.

(** ** The offset computed by [index] *)

Lemma index_loop_sum strides_ rest : forall i offset,
  is_size_t offset ->
  (i + length rest <= length strides_)%nat ->
  index_loop strides_ i rest offset
  = Ok (wrap (offset + flat_offset rest (drop i strides_))).
Proof.
  induction rest as [|x rest IH]; intros i offset Hoff Hlen; simpl in *.
  - unfold flat_offset. simpl. rewrite Z.add_0_r, wrap_small by assumption.
    reflexivity.
  - destruct (lookup_lt_is_Some_2 strides_ i) as [s Hs]; [lia|].
    rewrite Hs, (drop_S _ _ _ Hs).
    rewrite IH by (try apply wrap_range; lia).
    unfold flat_offset. cbn.
    set (rest_sum := foldr Z.add 0 _).
    rewrite wrap_add_l.
    replace (offset + wrap (x * s) + rest_sum)
      with (offset + rest_sum + wrap (x * s)) by lia.
    rewrite wrap_add_r. do 2 f_equal. lia.
Qed.

Lemma is_size_t_0 : is_size_t 0.
Proof. unfold is_size_t, SIZE_BITS. lia. Qed.

(** What [index] returns, in every case where [_strides[i]] stays within the
    vector. *)
Lemma index_eq T indices sv :
  (length indices <= length (_strides sv))%nat ->
  index T indices sv
  = if bool_decide (T = _dtype sv) then
      if bool_decide (wrap (flat_offset indices (_strides sv)) < _size sv)
      then Ok (ptr_add (_data sv) (wrap (flat_offset indices (_strides sv))))
      else AssertionFailed
    else AssertionFailed.
Proof.
  intros Hlen. unfold index, data.
  destruct (bool_decide (T = _dtype sv)); simpl; [|reflexivity].
  rewrite index_loop_sum by (try apply is_size_t_0; simpl; lia).
  rewrite drop_0, Z.add_0_l. simpl.
  destruct (bool_decide _); reflexivity.
Qed.

Lemma ptr_add_0 p : ptr_add p 0 = p.
Proof. destruct p as [|b off]; simpl; [reflexivity|]. f_equal. lia. Qed.

Lemma Forall_size_t_nonneg l : Forall is_size_t l -> Forall (fun x => 0 <= x) l.
Proof.
  intros H. eapply Forall_impl; [exact H|].
  unfold is_size_t. intros x Hx. lia.
Qed.

(** When the integer sum is below the logical size, no step of the loop
    wraps around. *)
Lemma flat_offset_no_wrap indices sv :
  Forall is_size_t indices -> Forall is_size_t (_strides sv) ->
  is_size_t (_size sv) ->
  flat_offset indices (_strides sv) < _size sv ->
  wrap (flat_offset indices (_strides sv)) = flat_offset indices (_strides sv).
Proof.
  intros Hi Hs Hsz Hlt. apply wrap_small.
  pose proof (flat_offset_nonneg _ _ (Forall_size_t_nonneg _ Hi)
                (Forall_size_t_nonneg _ Hs)).
  unfold is_size_t in *. lia.
Qed.

Example view_2x3_constructed :
  StorageView_fill [2; 3] DT_FLOAT 1 CPU empty_machine
  = Ok (view_2x3, machine_2x3).
Proof. vm_compute. reflexivity. Qed.

(** C7. [index<T>(indices)] computes the flat offset as the sum over i of
    indices[i] * strides[i] and returns the pointer to the element at that
    offset of the buffer, provided the offset is below the logical size; an
    offset that is not below the logical size fails the assertion. *)
Theorem index_computes_flat_offset (T : DataType) (indices : list Z)
  (sv : StorageView) :
  T = _dtype sv ->
  (length indices <= length (_strides sv))%nat ->
  Forall is_size_t indices -> Forall is_size_t (_strides sv) ->
  is_size_t (_size sv) ->
  (flat_offset indices (_strides sv) < _size sv ->
   index T indices sv
   = Ok (ptr_add (_data sv) (flat_offset indices (_strides sv)))) /\
  (_size sv <= wrap (flat_offset indices (_strides sv)) ->
   index T indices sv = AssertionFailed).
Proof.
  intros HT Hlen Hi Hs Hsz. rewrite index_eq by assumption.
  rewrite (bool_decide_eq_true_2 _ HT). split; intros Hoff.
  - rewrite flat_offset_no_wrap by assumption.
    rewrite bool_decide_eq_true_2 by assumption. reflexivity.
  - rewrite bool_decide_eq_false_2 by lia. reflexivity.
Qed.

Lemma index_computes_flat_offset_witness :
  flat_offset [1; 2] (_strides view_2x3) = 5 /\
  index DT_FLOAT [1; 2] view_2x3 = Ok (Ptr 1%positive 5) /\
  index DT_FLOAT [2; 0] view_2x3 = AssertionFailed.
Proof.
  split; [reflexivity|]. split.
  - apply (index_computes_flat_offset DT_FLOAT [1; 2] view_2x3);
      repeat constructor; vm_compute; congruence.
  - apply (index_computes_flat_offset DT_FLOAT [2; 0] view_2x3);
      repeat constructor; vm_compute; congruence.
Defined.

(** C8. Every typed access — [data<T>], [index<T>], [at<T>], [fill],
    [copy_from(pointer, count, device)] and [assign(pointer, shape)] —
    asserts that the tag of [T] is the element type of the object: with a
    different type the call fails the assertion, and no memory is read or
    written; with the same type [data<T>] returns the buffer. *)
Theorem typed_access_checks_element_type (T : DataType) (sv : StorageView) :
  (T <> _dtype sv ->
   data T sv = AssertionFailed /\
   (forall indices, index T indices sv = AssertionFailed) /\
   (forall i, at_flat T i sv = AssertionFailed) /\
   (forall indices, at_indices T indices sv = AssertionFailed) /\
   (forall v m, fill T v sv m = AssertionFailed) /\
   (forall WITH_CUDA p n device m,
       copy_from WITH_CUDA T p n device sv m = AssertionFailed) /\
   (forall p s m, assign T p s sv m = AssertionFailed)) /\
  (T = _dtype sv -> data T sv = Ok (_data sv)).
Proof.
  split.
  - intros HT.
    assert (Hdata : data T sv = AssertionFailed).
    { unfold data. rewrite bool_decide_eq_false_2 by assumption. reflexivity. }
    assert (Hindex : forall indices, index T indices sv = AssertionFailed).
    { intros indices. unfold index.
      rewrite bool_decide_eq_false_2 by assumption. reflexivity. }
    repeat split.
    + exact Hdata.
    + exact Hindex.
    + intros i. unfold at_flat. rewrite Hdata.
      destruct (bool_decide (i < _size sv)); reflexivity.
    + intros indices. unfold at_indices. rewrite Hindex. reflexivity.
    + intros v m. unfold fill, bind, assert, lift.
      rewrite bool_decide_eq_false_2 by assumption. reflexivity.
    + intros WITH_CUDA p n device m. unfold copy_from, bind, assert, lift.
      rewrite bool_decide_eq_false_2 by assumption. reflexivity.
    + intros p s m. unfold assign, bind, assert, lift.
      rewrite bool_decide_eq_false_2 by assumption. reflexivity.
  - intros HT. unfold data.
    rewrite bool_decide_eq_true_2 by assumption. reflexivity.
Qed.

Lemma typed_access_checks_element_type_witness :
  DT_INT32 <> _dtype view_2x3 /\
  data DT_INT32 view_2x3 = AssertionFailed /\
  fill DT_INT32 0 view_2x3 machine_2x3 = AssertionFailed /\
  data DT_FLOAT view_2x3 = Ok (Ptr 1%positive 0).
Proof.
  assert (Hne : DT_INT32 <> _dtype view_2x3) by discriminate.
  destruct (typed_access_checks_element_type DT_INT32 view_2x3) as [Hbad _].
  destruct (Hbad Hne) as (Hdata & _ & _ & _ & Hfill & _).
  destruct (typed_access_checks_element_type DT_FLOAT view_2x3) as [_ Hgood].
  split; [exact Hne|]. split; [exact Hdata|].
  split; [apply Hfill|]. apply Hgood. reflexivity.
Defined.

(** C9. The bounds check of the multi-dimensional accessors is the one of
    the flat accessor, applied to the computed offset: [index<T>(indices)]
    is [at<T>(offset)].  No index is compared with its dimension, so every
    index vector whose flat offset is below the logical size is accepted; in
    shape [2, 3], indices {0, 5} are accepted although 5 >= dim(1), and
    address the element of {1, 2}. *)
Theorem index_bounds_check_is_flat :
  (forall T indices sv,
      T = _dtype sv ->
      (length indices <= length (_strides sv))%nat ->
      index T indices sv
      = at_flat T (wrap (flat_offset indices (_strides sv))) sv) /\
  (forall T indices sv,
      T = _dtype sv ->
      (length indices <= length (_strides sv))%nat ->
      Forall is_size_t indices -> Forall is_size_t (_strides sv) ->
      is_size_t (_size sv) ->
      flat_offset indices (_strides sv) < _size sv ->
      index T indices sv
      = Ok (ptr_add (_data sv) (flat_offset indices (_strides sv))) /\
      at_indices T indices sv
      = Ok (ptr_add (_data sv) (flat_offset indices (_strides sv)))) /\
  (forall T sv,
      T = _dtype sv ->
      _shape sv = [2; 3] -> _strides sv = strides [2; 3] ->
      _size sv = size [2; 3] ->
      dim 1 sv = Ok 3 /\
      index T [0; 5] sv = Ok (ptr_add (_data sv) 5) /\
      index T [1; 2] sv = Ok (ptr_add (_data sv) 5) /\
      at_indices T [0; 5] sv = Ok (ptr_add (_data sv) 5) /\
      at_indices T [1; 2] sv = Ok (ptr_add (_data sv) 5)).
Proof.
  assert (Hgen : forall T indices sv,
      T = _dtype sv ->
      (length indices <= length (_strides sv))%nat ->
      Forall is_size_t indices -> Forall is_size_t (_strides sv) ->
      is_size_t (_size sv) ->
      flat_offset indices (_strides sv) < _size sv ->
      index T indices sv
      = Ok (ptr_add (_data sv) (flat_offset indices (_strides sv)))).
  { intros T indices sv HT Hlen Hi Hs Hsz Hoff.
    rewrite index_eq by assumption.
    rewrite flat_offset_no_wrap by assumption.
    rewrite !bool_decide_eq_true_2 by assumption. reflexivity. }
  split; [|split].
  - intros T indices sv HT Hlen. rewrite index_eq by assumption.
    unfold at_flat, data. rewrite (bool_decide_eq_true_2 _ HT).
    destruct (bool_decide _); reflexivity.
  - intros T indices sv HT Hlen Hi Hs Hsz Hoff.
    split; [apply Hgen; assumption|].
    unfold at_indices. rewrite Hgen by assumption. simpl.
    rewrite ptr_add_0. reflexivity.
  - intros T sv HT Hshape Hstrides Hsize.
    assert (H05 : index T [0; 5] sv = Ok (ptr_add (_data sv) 5)).
    { rewrite index_eq by (rewrite Hstrides; simpl; lia).
      rewrite Hstrides, Hsize, (bool_decide_eq_true_2 _ HT). reflexivity. }
    assert (H12 : index T [1; 2] sv = Ok (ptr_add (_data sv) 5)).
    { rewrite index_eq by (rewrite Hstrides; simpl; lia).
      rewrite Hstrides, Hsize, (bool_decide_eq_true_2 _ HT). reflexivity. }
    repeat split.
    + unfold dim. rewrite Hshape. reflexivity.
    + exact H05.
    + exact H12.
    + unfold at_indices. rewrite H05. simpl. rewrite ptr_add_0. reflexivity.
    + unfold at_indices. rewrite H12. simpl. rewrite ptr_add_0. reflexivity.
Qed.

Lemma index_bounds_check_is_flat_witness :
  dim 1 view_2x3 = Ok 3 /\
  index DT_FLOAT [0; 5] view_2x3 = Ok (Ptr 1%positive 5) /\
  index DT_FLOAT [1; 2] view_2x3 = Ok (Ptr 1%positive 5) /\
  at_indices DT_FLOAT [0; 5] view_2x3 = Ok (Ptr 1%positive 5) /\
  at_indices DT_FLOAT [1; 2] view_2x3 = Ok (Ptr 1%positive 5).
Proof.
  destruct index_bounds_check_is_flat as (_ & _ & Hex).
  apply (Hex DT_FLOAT view_2x3); reflexivity.
Defined.

(** ** Memory *)

Lemma splice_lookup_in l off cs k :
  (off + length cs <= length l)%nat -> (k < length cs)%nat ->
  splice l off cs !! (off + k)%nat = cs !! k.
Proof.
  intros H Hk. unfold splice.
  rewrite lookup_app_r by (rewrite length_take; lia).
  rewrite length_take, lookup_app_l by (rewrite ?length_take; lia).
  f_equal. lia.
Qed.

Lemma splice_lookup_out l off cs i :
  (off + length cs <= length l)%nat ->
  (i < off \/ off + length cs <= i)%nat ->
  splice l off cs !! i = l !! i.
Proof.
  intros H [Hi|Hi]; unfold splice.
  - rewrite lookup_app_l by (rewrite length_take; lia).
    apply lookup_take_lt. lia.
  - rewrite lookup_app_r by (rewrite length_take; lia).
    rewrite lookup_app_r by (rewrite length_take; lia).
    rewrite lookup_drop, length_take. f_equal. lia.
Qed.

Lemma read_cells_valid h p n :
  valid_range h p n ->
  exists cs, read_cells h p n = Some cs /\
             length cs = Z.to_nat n /\
             forall k, 0 <= k < n -> load h (ptr_add p k) = cs !! Z.to_nat k.
Proof.
  intros [->|(b & off & l & -> & Hb & Hoff & Hn & Hlen)].
  - exists []. repeat split. intros k Hk. lia.
  - unfold read_cells. rewrite decide_False by lia. rewrite Hb.
    rewrite decide_True by lia. eexists. split; [reflexivity|]. split.
    + rewrite length_take, length_drop. lia.
    + intros k Hk. simpl. rewrite decide_True by lia. rewrite Hb.
      rewrite lookup_take_lt by lia. rewrite lookup_drop. f_equal. lia.
Qed.

Lemma write_cells_valid h p cs :
  valid_range h p (Z.of_nat (length cs)) ->
  exists h', write_cells h p cs = Some h' /\
             (forall k, 0 <= k < Z.of_nat (length cs) ->
                        load h' (ptr_add p k) = cs !! Z.to_nat k) /\
             (forall q, ~ in_range p (Z.of_nat (length cs)) q ->
                        load h' q = load h q).
Proof.
  intros Hv. destruct cs as [|c cs].
  { exists h. split; [reflexivity|]. split; [simpl; lia|reflexivity]. }
  destruct Hv as [Hv|(b & off & l & -> & Hb & Hoff & Hn & Hlen)];
    [simpl in Hv; lia|].
  set (cs' := c :: cs) in *.
  assert (Hfit : (Z.to_nat off + length cs' <= length l)%nat) by lia.
  exists (<[b := splice l (Z.to_nat off) cs']> h). split; [|split].
  - unfold write_cells. fold cs'. unfold cs' at 1. rewrite Hb.
    rewrite decide_True by lia. reflexivity.
  - intros k Hk. simpl. rewrite decide_True by lia.
    rewrite lookup_insert_eq.
    replace (Z.to_nat (off + k)) with (Z.to_nat off + Z.to_nat k)%nat by lia.
    apply splice_lookup_in; lia.
  - intros [|b' off'] Hq; [reflexivity|]. simpl in *.
    destruct (decide (0 <= off')) as [Hoff'|]; [|reflexivity].
    destruct (decide (b = b')) as [<-|Hne].
    + rewrite lookup_insert_eq, Hb. apply splice_lookup_out; [exact Hfit|].
      assert (~ (off <= off' < off + Z.of_nat (length cs'))) by tauto. lia.
    + rewrite lookup_insert_ne by assumption. reflexivity.
Qed.

(** ** [copy_from(pointer, count, device)] *)

(** The run of [copy_from] once both assertions hold and both ranges are in
    live memory: the object is unchanged, the cells read at the source are
    written at the buffer, and one backend call is made. *)
Lemma copy_from_run (WITH_CUDA : bool) (T : DataType) (src : ptr) (n : Z)
  (device : Device) (sv : StorageView) (m : machine) cs h' :
  T = _dtype sv -> n = _size sv ->
  read_cells (heap m) src n = Some cs ->
  write_cells (heap m) (_data sv) cs = Some h' ->
  copy_from WITH_CUDA T src n device sv m
  = Ok (sv, {| heap := h';
               calls := calls m ++
                 [if WITH_CUDA && bool_decide (device <> _device sv) then
                    if bool_decide (device = CUDA)
                    then CrossCopy CUDA CPU src (_data sv) n
                    else CrossCopy CPU CUDA src (_data sv) n
                  else Copy device src (_data sv) n] |}).
Proof.
  intros HT Hn Hread Hwrite.
  unfold copy_from, bind, assert, lift, data, rbind.
  rewrite (bool_decide_eq_true_2 _ HT), (bool_decide_eq_true_2 _ Hn).
  unfold rassert.
  destruct (WITH_CUDA && bool_decide (device <> _device sv)).
  - destruct (bool_decide (device = CUDA));
      unfold cross_device_primitives.copy; rewrite Hread, Hwrite; reflexivity.
  - destruct device; unfold DEVICE_DISPATCH, bind, lift, primitives.copy;
      rewrite Hread, Hwrite; reflexivity.
Qed.

Lemma copy_from_size_mismatch (WITH_CUDA : bool) (T : DataType) (src : ptr)
  (n : Z) (device : Device) (sv : StorageView) (m : machine) :
  n <> _size sv -> copy_from WITH_CUDA T src n device sv m = AssertionFailed.
Proof.
  intros Hn. unfold copy_from, bind, assert, lift, rassert.
  rewrite (bool_decide_eq_false_2 _ Hn).
  destruct (bool_decide (T = _dtype sv)); reflexivity.
Qed.

(** Reading [n] cells at the source and writing them at the buffer. *)
Lemma copy_cells (src : ptr) (n : Z) (sv : StorageView) (m : machine) :
  valid_range (heap m) src n -> valid_range (heap m) (_data sv) n ->
  exists cs h',
    read_cells (heap m) src n = Some cs /\
    write_cells (heap m) (_data sv) cs = Some h' /\
    (forall k, 0 <= k < n ->
       load h' (ptr_add (_data sv) k) = load (heap m) (ptr_add src k)) /\
    (forall q, ~ in_range (_data sv) n q -> load h' q = load (heap m) q).
Proof.
  intros Hsrc Hdst.
  destruct (read_cells_valid _ _ _ Hsrc) as (cs & Hread & Hlen & Hcs).
  assert (Hn' : Z.of_nat (length cs) = n).
  { rewrite Hlen. destruct Hsrc as [->|(_ & _ & _ & _ & _ & _ & ? & _)]; lia. }
  rewrite <- Hn' in Hdst.
  destruct (write_cells_valid _ _ _ Hdst) as (h' & Hwrite & Hin & Hout).
  rewrite Hn' in Hin, Hout.
  exists cs, h'. repeat split; try assumption.
  intros k Hk. rewrite Hin, Hcs by assumption. reflexivity.
Qed.

Lemma machine_2x2_source : valid_range (heap machine_2x2) (Ptr 2%positive 0) 4.
Proof.
  right. exists 2%positive, 0, [Some 7; Some 8; Some 9; Some 10].
  repeat split; try reflexivity; simpl; lia.
Defined.

Lemma machine_2x2_buffer device :
  valid_range (heap machine_2x2) (_data (view_2x2 device)) 4.
Proof.
  right. exists 1%positive, 0, (replicate 4 (Some 1)).
  repeat split; try reflexivity; simpl; lia.
Defined.

(** C3. [copy_from(pointer, count, device)] with a count that is not the
    logical size fails the assertion (nothing is copied); with a count equal
    to the logical size it copies the first [count] cells of the source to
    the first [count] cells of the buffer and changes no other cell. *)
Theorem copy_from_requires_count_eq_size (WITH_CUDA : bool) (T : DataType)
  (src : ptr) (n : Z) (device : Device) (sv : StorageView) (m : machine) :
  (n <> _size sv ->
   copy_from WITH_CUDA T src n device sv m = AssertionFailed) /\
  (n = _size sv -> T = _dtype sv ->
   valid_range (heap m) src n -> valid_range (heap m) (_data sv) n ->
   exists m',
     copy_from WITH_CUDA T src n device sv m = Ok (sv, m') /\
     (forall k, 0 <= k < n ->
        load (heap m') (ptr_add (_data sv) k) = load (heap m) (ptr_add src k)) /\
     (forall q, ~ in_range (_data sv) n q ->
        load (heap m') q = load (heap m) q)).
Proof.
  split.
  - apply copy_from_size_mismatch.
  - intros Hn HT Hsrc Hdst.
    destruct (copy_cells src n sv m Hsrc Hdst)
      as (cs & h' & Hread & Hwrite & Hin & Hout).
    eexists. split; [apply (copy_from_run _ _ _ _ _ _ _ cs h'); assumption|].
    split; assumption.
Qed.

Lemma copy_from_requires_count_eq_size_witness :
  (3 <> _size (view_2x2 CPU) /\
   copy_from true DT_FLOAT (Ptr 2%positive 0) 3 CPU (view_2x2 CPU) machine_2x2
   = AssertionFailed) /\
  exists m',
    copy_from true DT_FLOAT (Ptr 2%positive 0) 4 CPU (view_2x2 CPU) machine_2x2
    = Ok (view_2x2 CPU, m') /\
    load (heap m') (Ptr 1%positive 3) = Some (Some 10).
Proof.
  split.
  - assert (Hne : 3 <> _size (view_2x2 CPU)) by (simpl; lia).
    split; [exact Hne|].
    apply (copy_from_requires_count_eq_size true DT_FLOAT (Ptr 2%positive 0) 3
             CPU (view_2x2 CPU) machine_2x2). exact Hne.
  - destruct (copy_from_requires_count_eq_size true DT_FLOAT (Ptr 2%positive 0)
                4 CPU (view_2x2 CPU) machine_2x2) as [_ Hok].
    destruct (Hok eq_refl eq_refl machine_2x2_source (machine_2x2_buffer CPU))
      as (m' & Hrun & Hin & _).
    exists m'. split; [exact Hrun|].
    apply (Hin 3). lia.
Defined.

Example borrowed_2x2_constructed :
  StorageView_buffer [2; 2] DT_FLOAT (Ptr 1%positive 0) CUDA machine_2x2
  = Ok (borrowed_2x2, machine_2x2).
Proof. vm_compute. reflexivity. Qed.

Example copy_from_without_cuda_run :
  exists h,
    copy_from false DT_FLOAT (Ptr 2%positive 0) 4 CPU borrowed_2x2 machine_2x2
    = Ok (borrowed_2x2,
          {| heap := h;
             calls := [Copy CPU (Ptr 2%positive 0) (Ptr 1%positive 0) 4] |}).
Proof. eexists. vm_compute. reflexivity. Qed.

(** In a build without [WITH_CUDA], a copy from CPU memory into an object
    tagged CUDA (here one that borrows its buffer) goes through
    [primitives<CPU>::copy], not through the cross-device copy: the source
    device differs from the object's device, and the call that is made is
    [Copy CPU], not [CrossCopy CPU CUDA]. *)
Lemma copy_from_without_cuda_is_same_device :
  ~ copy_from_routes_by_device_only.
Proof.
  intros Hclaim.
  destruct copy_from_without_cuda_run as [h Hrun].
  destruct (Hclaim false DT_FLOAT (Ptr 2%positive 0) 4 CPU borrowed_2x2
              machine_2x2 _ _ Hrun) as [Hcross _].
  specialize (Hcross ltac:(discriminate)). discriminate Hcross.
Qed.

(** C4 (amended). In a build with [WITH_CUDA], a source device other than
    the object's device routes the copy through the cross-device copy from
    the source device to the object's device.  When the two devices are
    equal, and for every source device in a build without [WITH_CUDA], the
    copy is routed through the same-device copy selected by the source
    device. *)
Theorem copy_from_routing (WITH_CUDA : bool) (T : DataType) (src : ptr)
  (n : Z) (device : Device) (sv : StorageView) (m : machine) :
  T = _dtype sv -> n = _size sv ->
  valid_range (heap m) src n -> valid_range (heap m) (_data sv) n ->
  exists m',
    copy_from WITH_CUDA T src n device sv m = Ok (sv, m') /\
    (WITH_CUDA = true -> device <> _device sv ->
     calls m' = calls m ++ [CrossCopy device (_device sv) src (_data sv) n]) /\
    (device = _device sv ->
     calls m' = calls m ++ [Copy (_device sv) src (_data sv) n]) /\
    (WITH_CUDA = false ->
     calls m' = calls m ++ [Copy device src (_data sv) n]).
Proof.
  intros HT Hn Hsrc Hdst.
  destruct (copy_cells src n sv m Hsrc Hdst)
    as (cs & h' & Hread & Hwrite & _).
  eexists. split; [apply (copy_from_run _ _ _ _ _ _ _ cs h'); assumption|].
  simpl. split; [|split].
  - intros -> Hne. rewrite (bool_decide_eq_true_2 _ Hne). simpl.
    destruct device, (_device sv); try congruence; reflexivity.
  - intros ->. rewrite bool_decide_eq_false_2 by tauto.
    rewrite andb_false_r. reflexivity.
  - intros ->. reflexivity.
Qed.

Lemma copy_from_routing_witness :
  exists m' m'',
    copy_from true DT_FLOAT (Ptr 2%positive 0) 4 CPU (view_2x2 CUDA) machine_2x2
    = Ok (view_2x2 CUDA, m') /\
    calls m' = [CrossCopy CPU CUDA (Ptr 2%positive 0) (Ptr 1%positive 0) 4] /\
    copy_from true DT_FLOAT (Ptr 2%positive 0) 4 CPU (view_2x2 CPU) machine_2x2
    = Ok (view_2x2 CPU, m'') /\
    calls m'' = [Copy CPU (Ptr 2%positive 0) (Ptr 1%positive 0) 4].
Proof.
  destruct (copy_from_routing true DT_FLOAT (Ptr 2%positive 0) 4 CPU
              (view_2x2 CUDA) machine_2x2 eq_refl eq_refl machine_2x2_source
              (machine_2x2_buffer CUDA)) as (m' & Hrun & Hcross & _).
  destruct (copy_from_routing true DT_FLOAT (Ptr 2%positive 0) 4 CPU
              (view_2x2 CPU) machine_2x2 eq_refl eq_refl machine_2x2_source
              (machine_2x2_buffer CPU)) as (m'' & Hrun' & _ & Hsame & _).
  exists m', m''. split; [exact Hrun|]. split.
  - apply Hcross; [reflexivity|discriminate].
  - split; [exact Hrun'|]. apply Hsame. reflexivity.
Defined.

(** ** [reshape] *)

Lemma strides_lookup (s : Shape) (i : nat) :
  (i < length s)%nat -> strides s !! i = Some (wrap (product (drop (S i) s))).
Proof.
  intros Hi. unfold strides. rewrite list_lookup_fmap.
  rewrite lookup_seq_lt by assumption. reflexivity.
Qed.

Lemma reshape_Ok (s : Shape) (sv : StorageView) :
  _size sv = size s ->
  reshape s sv
  = Ok {| _dtype := _dtype sv; _device := _device sv; _data := _data sv;
          _own_data := _own_data sv; _allocated_size := _allocated_size sv;
          _size := _size sv; _shape := s; _strides := strides s |}.
Proof.
  intros H. unfold reshape. rewrite (bool_decide_eq_true_2 _ H). reflexivity.
Qed.

Lemma reshape_rejects (s : Shape) (sv : StorageView) :
  _size sv <> size s -> reshape s sv = AssertionFailed.
Proof.
  intros H. unfold reshape. rewrite (bool_decide_eq_false_2 _ H). reflexivity.
Qed.

(** C2. For two shapes [S1], [S2] whose products are the logical size,
    [reshape(S1)] then [reshape(S2)] succeeds, touches neither the memory nor
    the buffer pointer nor the logical size, so that the element at every
    flat offset is the same as before; afterwards [shape()] is [S2] and
    [stride(i)] is the row-major stride product(S2[i+1..]) of [S2].  A
    reshape to a shape whose product is not the logical size fails the
    assertion. *)
Theorem reshape_roundtrip (sv : StorageView) (S1 S2 : Shape) (m : machine) :
  (size S1 = _size sv -> size S2 = _size sv ->
   exists sv',
     (do a <- lift (reshape S1 sv) in lift (reshape S2 a)) m = Ok (sv', m) /\
     shape sv' = S2 /\
     (forall i, (i < length S2)%nat ->
        stride (Z.of_nat i) sv' = Ok (wrap (product (drop (S i) S2)))) /\
     _data sv' = _data sv /\ _size sv' = _size sv /\
     (forall T k, at_flat T k sv' = at_flat T k sv) /\
     (forall T k, element_at T k sv' m = element_at T k sv m)) /\
  (forall S', size S' <> _size sv -> reshape S' sv = AssertionFailed).
Proof.
  split.
  - intros H1 H2. eexists. split.
    + unfold bind. rewrite reshape_Ok by congruence. simpl.
      rewrite reshape_Ok by (simpl; congruence). simpl. reflexivity.
    + simpl. repeat split.
      * intros i Hi. unfold stride, from_end, vector_at. simpl.
        destruct (Z.ltb_spec (Z.of_nat i) 0) as [Hneg|_]; [lia|].
        rewrite decide_True by lia. rewrite Nat2Z.id.
        rewrite strides_lookup by assumption. reflexivity.
  - intros S' H. apply reshape_rejects. congruence.
Qed.

Lemma reshape_roundtrip_witness :
  exists sv',
    (do a <- lift (reshape [3; 2] view_2x3) in lift (reshape [6; 1] a))
      machine_2x3 = Ok (sv', machine_2x3) /\
    shape sv' = [6; 1] /\
    stride 0 sv' = Ok 1 /\
    element_at DT_FLOAT 5 sv' machine_2x3 = element_at DT_FLOAT 5 view_2x3 machine_2x3.
Proof.
  destruct (reshape_roundtrip view_2x3 [3; 2] [6; 1] machine_2x3) as [Hok _].
  destruct (Hok eq_refl eq_refl) as (sv' & Hrun & Hshape & Hstride & _ & _ & _ & Helem).
  exists sv'. split; [exact Hrun|]. split; [exact Hshape|]. split.
  - apply (Hstride 0%nat). simpl. lia.
  - apply Helem.
Defined.

(** ** [release], [assign] and the destructor *)

Lemma free_owned_borrowed (sv : StorageView) (m : machine) :
  _own_data sv = false -> free_owned sv m = Ok (tt, m).
Proof.
  intros H. unfold free_owned, owned_buffer. rewrite H. reflexivity.
Qed.

Lemma free_owned_run (sv : StorageView) (m : machine) :
  releasable m sv ->
  exists m',
    free_owned sv m = Ok (tt, m') /\
    (forall b, owned_buffer sv = Some (Ptr b 0) ->
       heap m' = delete b (heap m) /\
       calls m' = calls m ++ [Free (_device sv) b]) /\
    (owned_buffer sv = None -> m' = m).
Proof.
  unfold releasable, free_owned.
  destruct (owned_buffer sv) as [p|].
  - intros (b & -> & [l Hl]). eexists. split.
    + unfold free_data. rewrite Hl. reflexivity.
    + split; [|discriminate]. intros b' [= <-]. split; reflexivity.
  - intros _. exists m. split; [reflexivity|]. split; [discriminate|reflexivity].
Qed.

(** The run of [assign] once the type assertion holds and the owned buffer,
    if any, has been freed. *)
Lemma assign_run (T : DataType) (p : ptr) (r : shape_ref) (sv : StorageView)
  (m m' : machine) :
  T = _dtype sv -> free_owned sv m = Ok (tt, m') ->
  assign T p r sv m
  = Ok ({| _dtype := _dtype sv; _device := _device sv; _data := p;
           _own_data := false;
           _allocated_size := size (shape_read_by_assign r);
           _size := size (shape_read_by_assign r);
           _shape := shape_read_by_assign r;
           _strides := strides (shape_read_by_assign r) |}, m').
Proof.
  intros HT Hfree. unfold assign, bind, assert, lift, release.
  rewrite (bool_decide_eq_true_2 _ HT). unfold rassert, bind.
  rewrite Hfree. unfold ret.
  destruct r; (rewrite reshape_Ok by reflexivity); reflexivity.
Qed.

(** X19. With a shape that is no part of the object, [assign(pointer, shape)]
    frees the buffer the object owned, if any (the only call it makes: no
    element is copied), and leaves the object borrowing [pointer]: not
    owning, capacity and logical size equal to product(shape), shape and
    strides those of [shape].  After that neither [release()] nor the
    destructor frees anything: they make no call and leave the memory as it
    is. *)
Theorem assign_borrows (T : DataType) (p : ptr) (s : Shape) (sv : StorageView)
  (m : machine) :
  T = _dtype sv -> releasable m sv ->
  exists sv' m',
    assign T p (a_shape s) sv m = Ok (sv', m') /\
    (forall b, owned_buffer sv = Some (Ptr b 0) ->
       heap m' = delete b (heap m) /\
       calls m' = calls m ++ [Free (_device sv) b]) /\
    (owned_buffer sv = None -> m' = m) /\
    _data sv' = p /\ _own_data sv' = false /\
    _allocated_size sv' = size s /\ _size sv' = size s /\
    _shape sv' = s /\ _strides sv' = strides s /\
    _dtype sv' = _dtype sv /\ _device sv' = _device sv /\
    (forall m1, exists sv'', release sv' m1 = Ok (sv'', m1)) /\
    (forall m1, destroy sv' m1 = Ok (tt, m1)).
Proof.
  intros HT Hrel.
  destruct (free_owned_run sv m Hrel) as (m' & Hfree & Hown & Hnone).
  eexists _, m'. split.
  - apply (assign_run _ _ (a_shape s)); assumption.
  - simpl.
    do 10 (split; [first [assumption | reflexivity]|]).
    split; intros m1.
    + eexists. unfold release, bind.
      rewrite free_owned_borrowed by reflexivity. reflexivity.
    + unfold destroy. apply free_owned_borrowed. reflexivity.
Qed.

Lemma assign_borrows_witness :
  exists sv' m',
    assign DT_FLOAT (Ptr 2%positive 0) (a_shape [2; 3]) view_2x3
      machine_external
    = Ok (sv', m') /\
    heap m' = {[ 2%positive := replicate 6 (Some 5) ]} /\
    calls m' = [Free CPU 1%positive] /\
    _own_data sv' = false /\
    (exists sv'', release sv' m' = Ok (sv'', m')) /\
    destroy sv' m' = Ok (tt, m').
Proof.
  assert (Hrel : releasable machine_external view_2x3).
  { exists 1%positive. split; [reflexivity|]. eexists. reflexivity. }
  destruct (assign_borrows DT_FLOAT (Ptr 2%positive 0) [2; 3] view_2x3
              machine_external eq_refl Hrel)
    as (sv' & m' & Hrun & Hown & _ & _ & Hborrow & _ & _ & _ & _ & _ & _ & Hrelease & Hdestroy).
  destruct (Hown 1%positive eq_refl) as [Hheap Hcalls].
  exists sv', m'. split; [exact Hrun|]. split.
  - rewrite Hheap. vm_compute. reflexivity.
  - split; [exact Hcalls|]. split; [exact Hborrow|].
    split; [apply Hrelease|apply Hdestroy].
Defined.

(** C5. [assign] takes its shape by reference and reads it after
    [release()].  At [sv.assign(pointer, sv.shape())] the reference is to the
    shape of the object itself, which [release()] has emptied by then: the
    owned buffer, if any, is freed and the object ends borrowing [pointer]
    with capacity 0, logical size 0 and the empty shape, whatever its shape
    was, and not with product(shape) elements in that shape. *)
Theorem assign_with_own_shape_ends_empty (T : DataType) (p : ptr)
  (sv : StorageView) (m : machine) :
  T = _dtype sv -> releasable m sv ->
  exists sv' m',
    assign T p this_shape sv m = Ok (sv', m') /\
    free_owned sv m = Ok (tt, m') /\
    _data sv' = p /\ _own_data sv' = false /\
    _allocated_size sv' = 0 /\ _size sv' = 0 /\
    _shape sv' = [] /\ _strides sv' = [].
Proof.
  intros HT Hrel.
  destruct (free_owned_run sv m Hrel) as (m' & Hfree & _).
  eexists _, m'. split; [apply (assign_run _ _ this_shape); assumption|].
  simpl. split; [exact Hfree|]. repeat split.
Qed.

Lemma assign_with_own_shape_ends_empty_witness :
  _shape view_2x3 = [2; 3] /\ size (_shape view_2x3) = 6 /\
  exists sv' m',
    assign DT_FLOAT (Ptr 2%positive 0) this_shape view_2x3 machine_external
    = Ok (sv', m') /\
    _allocated_size sv' = 0 /\ _size sv' = 0 /\ _shape sv' = [].
Proof.
  split; [reflexivity|]. split; [reflexivity|].
  assert (Hrel : releasable machine_external view_2x3).
  { exists 1%positive. split; [reflexivity|]. eexists. reflexivity. }
  destruct (assign_with_own_shape_ends_empty DT_FLOAT (Ptr 2%positive 0)
              view_2x3 machine_external eq_refl Hrel)
    as (sv' & m' & Hrun & _ & _ & _ & Hcap & Hsize & Hshape & _).
  exists sv', m'. split; [exact Hrun|]. split; [exact Hcap|].
  split; [exact Hsize|exact Hshape].
Defined.

(** ** The resize family *)

Lemma alloc_data_run (D : Device) (n : Z) (m : machine) :
  exists b,
    heap m !! b = None /\
    alloc_data D n m
    = Ok (Ptr b 0, {| heap := <[b := replicate (Z.to_nat n) None]> (heap m);
                      calls := calls m ++ [Alloc D n b] |}).
Proof.
  exists (fresh (dom (heap m))). split; [|reflexivity].
  apply not_elem_of_dom. apply is_fresh.
Qed.

Lemma load_fresh_block (h : gmap block (list cell)) (b : block) (n k : Z) :
  0 <= k < n ->
  load (<[b := replicate (Z.to_nat n) None]> h) (ptr_add (Ptr b 0) k)
  = Some None.
Proof.
  intros Hk. simpl. rewrite decide_True by lia. rewrite lookup_insert_eq.
  apply lookup_replicate_2. lia.
Qed.

(** Resizing within the capacity: the machine is not touched, and only the
    logical size, the shape and the strides of the object change. *)
Lemma resize_within_capacity (s : Shape) (sv : StorageView) (m : machine) :
  size s <= _allocated_size sv ->
  resize s sv m
  = Ok ({| _dtype := _dtype sv; _device := _device sv; _data := _data sv;
           _own_data := _own_data sv; _allocated_size := _allocated_size sv;
           _size := size s; _shape := s; _strides := strides s |}, m).
Proof.
  intros Hfit. unfold resize, bind.
  destruct (Z.ltb_spec (_allocated_size sv) (size s)) as [Hlt|_]; [lia|].
  unfold ret. rewrite reshape_Ok by reflexivity. reflexivity.
Qed.

(** Resizing an owned buffer beyond the capacity. *)
Lemma resize_beyond_capacity (s : Shape) (sv : StorageView) (m : machine) :
  _own_data sv = true -> releasable m sv -> _allocated_size sv < size s ->
  exists m1 b,
    free_owned sv m = Ok (tt, m1) /\
    heap m1 !! b = None /\
    resize s sv m
    = Ok ({| _dtype := _dtype sv; _device := _device sv; _data := Ptr b 0;
             _own_data := true; _allocated_size := size s;
             _size := size s; _shape := s; _strides := strides s |},
          {| heap := <[b := replicate (Z.to_nat (size s)) None]> (heap m1);
             calls := calls m1 ++ [Alloc (_device sv) (size s) b] |}).
Proof.
  intros Hown Hrel Hlt.
  destruct (free_owned_run sv m Hrel) as (m1 & Hfree & _).
  destruct (alloc_data_run (_device sv) (size s) m1) as (b & Hb & Halloc).
  exists m1, b. split; [exact Hfree|]. split; [exact Hb|].
  unfold resize, bind.
  destruct (Z.ltb_spec (_allocated_size sv) (size s)) as [_|Hge]; [|lia].
  unfold reallocate, bind. rewrite Hown, Hfree, Halloc. unfold ret.
  rewrite reshape_Ok by reflexivity. reflexivity.
Qed.

Lemma vector_at_Ok (v : list Z) (i x : Z) :
  vector_at v i = Ok x -> 0 <= i /\ v !! Z.to_nat i = Some x.
Proof.
  unfold vector_at. destruct (decide (0 <= i)); [|discriminate].
  destruct (v !! Z.to_nat i); [|discriminate]. intros [= ->]. split; [lia|reflexivity].
Qed.

(** Lowering one dimension does not raise the product. *)
Lemma product_insert_le (l : list Z) (i : nat) (old new : Z) :
  Forall (fun d => 0 <= d) l -> l !! i = Some old -> 0 <= new <= old ->
  0 <= product (<[i := new]> l) <= product l.
Proof.
  intros Hl. revert i. induction Hl as [|d l Hd Hl IH]; intros i Hi Hnew.
  - discriminate.
  - pose proof (product_nonneg l Hl) as Hp. destruct i as [|i]; simpl in *.
    + injection Hi as ->. nia.
    + specialize (IH i Hi Hnew). nia.
Qed.

Lemma size_insert_le (s : Shape) (i : nat) (old new : Z) :
  Forall is_size_t s -> product s < 2 ^ SIZE_BITS ->
  s !! i = Some old -> 0 <= new <= old ->
  size (<[i := new]> s) <= size s.
Proof.
  intros Hs Hp Hi Hnew.
  pose proof (product_insert_le s i old new (Forall_size_t_nonneg _ Hs) Hi Hnew).
  pose proof (product_nonneg s (Forall_size_t_nonneg _ Hs)).
  destruct s as [|d s]; [discriminate|].
  assert (Hne : exists d' s', <[i := new]> (d :: s) = d' :: s').
  { destruct i; simpl; eauto. }
  destruct Hne as (d' & s' & Heq). rewrite Heq in H |- *. unfold size.
  rewrite !wrap_small by (unfold is_size_t; lia). lia.
Qed.

(** C6 (amended). Resizing an owned buffer to a logical size above the
    capacity frees the old buffer and allocates a buffer of exactly the new
    size, all of whose cells are indeterminate: nothing of the prior contents
    is carried over.  Resizing to a logical size within the capacity makes no call,
    leaves the memory and the buffer pointer as they are, and changes only
    the logical size, the shape and the strides.  [shrink(dim, amount)], for
    an amount up to the dimension and a shape whose product fits [size_t],
    is such a resize: it never reallocates. *)
Theorem resize_reallocates_only_on_growth (s : Shape) (sv : StorageView)
  (m : machine) :
  (_own_data sv = true -> releasable m sv -> _allocated_size sv < size s ->
   exists sv' m' m1 b,
     resize s sv m = Ok (sv', m') /\
     free_owned sv m = Ok (tt, m1) /\
     heap m1 !! b = None /\
     heap m' = <[b := replicate (Z.to_nat (size s)) None]> (heap m1) /\
     calls m' = calls m1 ++ [Alloc (_device sv) (size s) b] /\
     _data sv' = Ptr b 0 /\ _own_data sv' = true /\
     _allocated_size sv' = size s /\ _size sv' = size s /\
     _shape sv' = s /\ _strides sv' = strides s /\
     (forall k, 0 <= k < size s ->
        load (heap m') (ptr_add (_data sv') k) = Some None)) /\
  (size s <= _allocated_size sv ->
   resize s sv m
   = Ok ({| _dtype := _dtype sv; _device := _device sv; _data := _data sv;
            _own_data := _own_data sv; _allocated_size := _allocated_size sv;
            _size := size s; _shape := s; _strides := strides s |}, m)) /\
  (forall d amount old,
      size_invariant sv ->
      Forall is_size_t (_shape sv) -> product (_shape sv) < 2 ^ SIZE_BITS ->
      vector_at (_shape sv) d = Ok old -> 0 <= amount <= old ->
      exists sv',
        shrink d amount sv m = Ok (sv', m) /\
        _data sv' = _data sv /\ _own_data sv' = _own_data sv /\
        _allocated_size sv' = _allocated_size sv /\
        _shape sv' = <[Z.to_nat d := old - amount]> (_shape sv) /\
        _size sv' = size (_shape sv')).
Proof.
  split; [|split].
  - intros Hown Hrel Hlt.
    destruct (resize_beyond_capacity s sv m Hown Hrel Hlt)
      as (m1 & b & Hfree & Hb & Hrun).
    eexists _, _, m1, b. split; [exact Hrun|]. simpl.
    do 10 (split; [first [assumption | reflexivity]|]).
    intros k Hk. apply load_fresh_block. exact Hk.
  - apply resize_within_capacity.
  - intros d amount old [Hsize Hcap] Hshape Hprod Hat Hamount.
    destruct (vector_at_Ok _ _ _ Hat) as [Hd Hlookup].
    assert (Hold : is_size_t old).
    { eapply Forall_lookup_1 in Hshape; [exact Hshape|exact Hlookup]. }
    assert (Hwrap : wrap (old - amount) = old - amount).
    { apply wrap_small. unfold is_size_t in *. lia. }
    assert (Hle : size (<[Z.to_nat d := old - amount]> (_shape sv))
                  <= _allocated_size sv).
    { pose proof (size_insert_le (_shape sv) (Z.to_nat d) old (old - amount)
                    Hshape Hprod Hlookup ltac:(lia)). lia. }
    eexists. split.
    + unfold shrink, resize_dim, bind, lift. rewrite Hat, Hwrap.
      rewrite resize_within_capacity by exact Hle. reflexivity.
    + simpl. repeat split.
Qed.

Ltac size_t_solve := unfold is_size_t, SIZE_BITS in *; simpl; lia.

Lemma view_2x3_releasable : releasable machine_2x3 view_2x3.
Proof. exists 1%positive. split; [reflexivity|]. eexists. reflexivity. Defined.

Lemma view_2x3_size_invariant : size_invariant view_2x3.
Proof. split; [reflexivity|simpl; lia]. Defined.

Lemma resize_reallocates_only_on_growth_witness :
  (exists sv' m',
      resize [2; 4] view_2x3 machine_2x3 = Ok (sv', m') /\
      _allocated_size sv' = 8 /\
      load (heap m') (ptr_add (_data sv') 5) = Some None) /\
  (exists sv',
      resize [1; 3] view_2x3 machine_2x3 = Ok (sv', machine_2x3) /\
      _data sv' = Ptr 1%positive 0 /\ _shape sv' = [1; 3]) /\
  (exists sv',
      shrink 1 1 view_2x3 machine_2x3 = Ok (sv', machine_2x3) /\
      _data sv' = Ptr 1%positive 0 /\ _shape sv' = [2; 2]).
Proof.
  destruct (resize_reallocates_only_on_growth [2; 4] view_2x3 machine_2x3)
    as (Hgrow & _ & Hshrink).
  destruct (resize_reallocates_only_on_growth [1; 3] view_2x3 machine_2x3)
    as (_ & Hfit & _).
  split; [|split].
  - destruct (Hgrow eq_refl view_2x3_releasable ltac:(vm_compute; reflexivity))
      as (sv' & m' & _ & _ & Hrun & _ & _ & _ & _ & _ & _ & Hcap & _ & _ & _ & Hload).
    exists sv', m'. split; [exact Hrun|]. split; [exact Hcap|].
    apply Hload. vm_compute. split; [discriminate|reflexivity].
  - eexists. split; [apply Hfit; vm_compute; discriminate|].
    split; reflexivity.
  - destruct (Hshrink 1 1 3 view_2x3_size_invariant) as (sv' & Hrun & Hdata & _ & _ & Hshape & _).
    + repeat constructor; size_t_solve.
    + size_t_solve.
    + reflexivity.
    + lia.
    + exists sv'. split; [exact Hrun|]. split; [exact Hdata|exact Hshape].
Defined.

Lemma shrink_run (d amount old : Z) (sv : StorageView) (m : machine) :
  vector_at (_shape sv) d = Ok old ->
  shrink d amount sv m
  = resize (<[Z.to_nat d := wrap (old - amount)]> (_shape sv)) sv m.
Proof.
  intros Hat. unfold shrink, resize_dim, bind, lift. rewrite Hat. reflexivity.
Qed.

(** [shrink(1, 4)] on the storage of shape [2, 3]: the dimension 3 - 4 wraps
    around to 2^64 - 1, the element count to 2^64 - 2, and the resize frees
    the buffer and allocates a new one of that capacity. *)
Example shrink_beyond_dimension_run :
  exists sv' m' b,
    shrink 1 4 view_2x3 machine_2x3 = Ok (sv', m') /\
    _shape sv' = [2; 2 ^ 64 - 1] /\
    _allocated_size sv' = 2 ^ 64 - 2 /\
    calls m' = calls machine_2x3 ++
               [Free CPU 1%positive; Alloc CPU (2 ^ 64 - 2) b].
Proof.
  destruct (resize_beyond_capacity
              (<[Z.to_nat 1 := wrap (3 - 4)]> (_shape view_2x3))
              view_2x3 machine_2x3 eq_refl view_2x3_releasable)
    as (m1 & b & Hfree & _ & Hrun); [vm_compute; reflexivity|].
  injection Hfree as <-.
  eexists _, _, b. split.
  - rewrite (shrink_run 1 4 3) by reflexivity. exact Hrun.
  - split; [reflexivity|]. split; [reflexivity|]. reflexivity.
Qed.

(** The code under a shrink by more than the dimension: it reallocates. *)
Lemma shrink_beyond_dimension_reallocates : ~ shrink_never_reallocates.
Proof.
  intros Hclaim.
  destruct shrink_beyond_dimension_run as (sv' & m' & b & Hrun & _ & Hcap & _).
  destruct (Hclaim 1 4 view_2x3 machine_2x3 sv' m' eq_refl view_2x3_releasable
              view_2x3_size_invariant Hrun) as (_ & Hcap' & _).
  rewrite Hcap in Hcap'. discriminate Hcap'.
Qed.

(** ** The size invariant *)

Lemma ret_Ok {A : Type} (a : A) (m : machine) (r : A * machine) :
  ret a m = Ok r -> r = (a, m).
Proof. unfold ret. intros [= <-]. reflexivity. Qed.

Lemma reallocate_sizes (n : Z) (sv sv' : StorageView) (m m' : machine) :
  reallocate n sv m = Ok (sv', m') ->
  _allocated_size sv' = n /\ _size sv' = _size sv /\ _shape sv' = _shape sv.
Proof.
  unfold reallocate. destruct (_own_data sv); [|discriminate].
  intros H. apply bind_Ok in H as (_ & m1 & _ & H).
  apply bind_Ok in H as (p & m2 & _ & H).
  apply ret_Ok in H. injection H as -> _. repeat split.
Qed.

Lemma resize_sizes (s : Shape) (sv sv' : StorageView) (m m' : machine) :
  resize s sv m = Ok (sv', m') ->
  _size sv' = size s /\ _shape sv' = s /\ size s <= _allocated_size sv'.
Proof.
  unfold resize. intros H. apply bind_Ok in H as (sv1 & m1 & H1 & H).
  apply lift_Ok in H as (a & H & Ha). injection Ha as -> _.
  rewrite reshape_Ok in H by reflexivity. injection H as <-. simpl.
  split; [reflexivity|]. split; [reflexivity|].
  destruct (Z.ltb_spec (_allocated_size sv) (size s)) as [Hlt|Hge].
  - apply reallocate_sizes in H1 as (-> & _). lia.
  - apply ret_Ok in H1. injection H1 as -> _. exact Hge.
Qed.

Lemma resize_dim_sizes (d n : Z) (sv sv' : StorageView) (m m' : machine) :
  resize_dim d n sv m = Ok (sv', m') ->
  _size sv' = size (_shape sv') /\ _size sv' <= _allocated_size sv'.
Proof.
  unfold resize_dim. intros H. apply bind_Ok in H as (x & m1 & _ & H).
  apply resize_sizes in H as (Hsize & Hshape & Hcap).
  rewrite Hshape, Hsize. split; [reflexivity|exact Hcap].
Qed.

Lemma release_sizes (sv sv' : StorageView) (m m' : machine) :
  release sv m = Ok (sv', m') ->
  _size sv' = 0 /\ _shape sv' = [] /\ _allocated_size sv' = 0.
Proof.
  unfold release. intros H. apply bind_Ok in H as (_ & m1 & _ & H).
  apply ret_Ok in H. injection H as -> _. repeat split.
Qed.

Lemma copy_from_same_object (WITH_CUDA : bool) (T : DataType) (src : ptr)
  (n : Z) (device : Device) (sv sv' : StorageView) (m m' : machine) :
  copy_from WITH_CUDA T src n device sv m = Ok (sv', m') -> sv' = sv.
Proof.
  unfold copy_from. intros H.
  apply bind_Ok in H as (_ & m1 & _ & H).
  apply bind_Ok in H as (_ & m2 & _ & H).
  apply bind_Ok in H as (_ & m3 & _ & H).
  apply ret_Ok in H. injection H as -> _. reflexivity.
Qed.

Lemma assign_sizes (T : DataType) (p : ptr) (s : shape_ref)
  (sv sv' : StorageView) (m m' : machine) :
  assign T p s sv m = Ok (sv', m') ->
  _size sv' = size (_shape sv') /\ _allocated_size sv' = _size sv'.
Proof.
  unfold assign. intros H. apply bind_Ok in H as (_ & m1 & _ & H).
  apply bind_Ok in H as (sv1 & m2 & _ & H).
  apply lift_Ok in H as (a & H & Ha). injection Ha as -> _.
  rewrite reshape_Ok in H by (destruct s; reflexivity). injection H as <-.
  destruct s; split; reflexivity.
Qed.

Lemma fill_same_object (T : DataType) (v : value) (sv sv' : StorageView)
  (m m' : machine) :
  fill T v sv m = Ok (sv', m') -> sv' = sv.
Proof.
  unfold fill. intros H.
  apply bind_Ok in H as (_ & m1 & _ & H).
  apply bind_Ok in H as (_ & m2 & _ & H).
  apply ret_Ok in H. injection H as -> _. reflexivity.
Qed.

(** For a shape of rank at least 1 whose element count is representable,
    [size] is the product of the dimensions. *)
Lemma size_is_product (s : Shape) :
  s <> [] -> Forall is_size_t s -> product s < 2 ^ SIZE_BITS ->
  size s = product s.
Proof.
  intros Hne Hs Hp. destruct s as [|d s]; [congruence|]. unfold size.
  apply wrap_small. split; [|exact Hp].
  apply product_nonneg, Forall_size_t_nonneg, Hs.
Qed.

Lemma init_size_invariant (T : DataType) (device : Device) :
  size_invariant (init T device).
Proof. split; simpl; [reflexivity|lia]. Qed.

(** Every constructor that returns yields an object that satisfies the
    invariant. *)
Lemma constructors_establish_size_invariant (WITH_CUDA : bool) (s : Shape)
  (T : DataType) (v : value) (init_ : vector) (p : ptr) (device : Device)
  (sv : StorageView) (m m' : machine) :
  StorageView_fill s T v device m = Ok (sv, m') \/
  StorageView_scalar T v device m = Ok (sv, m') \/
  StorageView_vector WITH_CUDA s T init_ device m = Ok (sv, m') \/
  StorageView_buffer s T p device m = Ok (sv, m') ->
  size_invariant sv.
Proof.
  unfold size_invariant. intros [H|[H|[H|H]]].
  - apply bind_Ok in H as (sv1 & m1 & H1 & H).
    apply fill_same_object in H as ->.
    apply resize_sizes in H1 as (-> & -> & Hle). split; [reflexivity|exact Hle].
  - apply bind_Ok in H as (sv1 & m1 & H1 & H).
    apply fill_same_object in H as ->.
    apply resize_sizes in H1 as (-> & -> & Hle). split; [reflexivity|exact Hle].
  - apply bind_Ok in H as (sv1 & m1 & H1 & H).
    apply copy_from_same_object in H as ->.
    apply resize_sizes in H1 as (-> & -> & Hle). split; [reflexivity|exact Hle].
  - apply assign_sizes in H as [H1 H2]. split; [exact H1|lia].
Qed.

(** C1. Every mutating operation that returns leaves the logical size equal
    to the product of the dimensions of the shape (as [size(shape)] computes
    it) and the capacity at least the logical size. *)
Theorem mutators_keep_size_invariant (WITH_CUDA : bool) (op : mutator)
  (sv sv' : StorageView) (m m' : machine) :
  size_invariant sv ->
  apply WITH_CUDA op sv m = Ok (sv', m') ->
  size_invariant sv'.
Proof.
  intros [Hsize Hcap] H. unfold size_invariant.
  destruct op as [s|d n|d n|d n|s| | |n|T p s|other]; simpl in H.
  - apply resize_sizes in H as (-> & -> & Hle). split; [reflexivity|exact Hle].
  - apply resize_dim_sizes in H. exact H.
  - unfold grow in H. apply bind_Ok in H as (x & m1 & _ & H).
    apply resize_dim_sizes in H. exact H.
  - unfold shrink in H. apply bind_Ok in H as (x & m1 & _ & H).
    apply resize_dim_sizes in H. exact H.
  - apply lift_Ok in H as (a & H & Ha). injection Ha as -> _.
    unfold reshape in H.
    destruct (bool_decide_reflect (_size sv = size s)) as [Heq|_];
      [|discriminate].
    injection H as <-. simpl. split; [exact Heq|exact Hcap].
  - apply ret_Ok in H. injection H as -> _. simpl.
    pose proof (size_range (_shape sv)). unfold is_size_t in *. lia.
  - apply release_sizes in H as (-> & -> & ->). simpl. lia.
  - unfold reserve in H.
    destruct (Z.leb_spec n (_allocated_size sv)) as [_|Hlt].
    + apply ret_Ok in H. injection H as -> _. split; assumption.
    + apply reallocate_sizes in H as (-> & -> & ->). split; [exact Hsize|lia].
  - apply assign_sizes in H as [H1 H2]. split; [exact H1|lia].
  - unfold deep_copy in H. apply bind_Ok in H as (sv1 & m1 & _ & H).
    apply bind_Ok in H as (sv2 & m2 & H2 & H).
    apply bind_Ok in H as (sv3 & m3 & H3 & H).
    apply copy_from_same_object in H as ->.
    unfold allocate_owned in H2. apply bind_Ok in H2 as (p & m4 & _ & H2).
    apply ret_Ok in H2. injection H2 as -> _.
    apply lift_Ok in H3 as (a & H3 & Ha). injection Ha as -> _.
    rewrite reshape_Ok in H3 by reflexivity. injection H3 as <-. simpl.
    split; [reflexivity|lia].
Qed.

Lemma mutators_keep_size_invariant_witness :
  exists sv' m',
    apply true (Grow 1 1) view_2x3 machine_2x3 = Ok (sv', m') /\
    size_invariant view_2x3 /\ size_invariant sv' /\
    _shape sv' = [2; 4] /\ _size sv' = 8.
Proof.
  eexists _, _. split; [vm_compute; reflexivity|].
  split; [exact view_2x3_size_invariant|]. split; [|split; reflexivity].
  eapply (mutators_keep_size_invariant true (Grow 1 1) view_2x3 _ machine_2x3).
  - exact view_2x3_size_invariant.
  - vm_compute. reflexivity.
Defined.

(** ** The constructor from a [std::vector] *)

Lemma valid_range_fresh_block (h : gmap block (list cell)) (b : block)
  (l : list cell) (p : ptr) (n : Z) :
  h !! b = None -> valid_range h p n -> valid_range (<[b := l]> h) p n.
Proof.
  intros Hb [->|(b0 & off & l0 & -> & Hb0 & Hrest)]; [left; reflexivity|].
  right. exists b0, off, l0. split; [reflexivity|]. split; [|exact Hrest].
  rewrite lookup_insert_ne by congruence. exact Hb0.
Qed.

Lemma valid_range_new_block (h : gmap block (list cell)) (b : block) (n : Z) :
  0 <= n -> valid_range (<[b := replicate (Z.to_nat n) None]> h) (Ptr b 0) n.
Proof.
  intros Hn. destruct (decide (n = 0)) as [->|Hne]; [left; reflexivity|].
  right. exists b, 0, (replicate (Z.to_nat n) None).
  rewrite lookup_insert_eq, length_replicate. repeat split; lia.
Qed.

(** The object and the machine after the [resize] that starts every shaped
    constructor: the buffer holds exactly [size shape_] cells. *)
Lemma resize_init (shape_ : Shape) (T : DataType) (device : Device)
  (m : machine) :
  exists sv m',
    resize shape_ (init T device) m = Ok (sv, m') /\
    _dtype sv = T /\ _device sv = device /\ _size sv = size shape_ /\
    _shape sv = shape_ /\
    valid_range (heap m') (_data sv) (size shape_) /\
    (forall p n, valid_range (heap m) p n -> valid_range (heap m') p n).
Proof.
  pose proof (size_range shape_) as Hrange. unfold is_size_t in Hrange.
  destruct (decide (size shape_ = 0)) as [Hzero|Hpos].
  - eexists _, m. split.
    + apply resize_within_capacity. simpl. lia.
    + simpl. repeat split; try reflexivity.
      * left. exact Hzero.
      * intros p n H. exact H.
  - destruct (resize_beyond_capacity shape_ (init T device) m)
      as (m1 & b & Hfree & Hb & Hrun); [reflexivity|exact I|simpl; lia|].
    injection Hfree as <-.
    eexists _, _. split; [exact Hrun|]. simpl. repeat split; try reflexivity.
    + apply valid_range_new_block. lia.
    + intros p n H. apply valid_range_fresh_block; assumption.
Qed.

Example vector_constructor_without_cuda_run :
  StorageView_vector false [0] DT_FLOAT vector_empty CUDA empty_machine
  = Ok ({| _dtype := DT_FLOAT; _device := CUDA; _data := nullptr;
           _own_data := true; _allocated_size := 0; _size := 0;
           _shape := [0]; _strides := [1] |},
        {| heap := ∅; calls := [Copy CPU nullptr nullptr 0] |}).
Proof. vm_compute. reflexivity. Qed.

(** In a build without [WITH_CUDA], constructing an object tagged CUDA from
    a vector copies through [primitives<CPU>::copy], not through the
    cross-device copy; an empty vector with shape [0], which needs no
    allocation, shows it. *)
Lemma vector_constructor_without_cuda_is_same_device :
  ~ vector_constructor_routes_by_device_only.
Proof.
  intros Hclaim.
  destruct (Hclaim false [0] DT_FLOAT vector_empty CUDA empty_machine _ _
              vector_constructor_without_cuda_run) as [Hcross _].
  specialize (Hcross eq_refl). discriminate Hcross.
Qed.

(** C10 (amended). The constructor from a [std::vector] resizes to the shape
    and then copies with [Device::CPU] as the source device, whatever the
    device of the object under construction.  In a build with [WITH_CUDA] a
    CUDA object is therefore filled through the cross-device copy from CPU to
    CUDA; a CPU object, and every object in a build without [WITH_CUDA], is
    filled through the same-device copy of the CPU. *)
Theorem vector_constructor_copies_from_host (WITH_CUDA : bool) (shape_ : Shape)
  (T : DataType) (init_ : vector) (device : Device) (m : machine) :
  vector_size init_ = size shape_ ->
  valid_range (heap m) (vector_data init_) (vector_size init_) ->
  exists sv m',
    StorageView_vector WITH_CUDA shape_ T init_ device m = Ok (sv, m') /\
    _device sv = device /\ _shape sv = shape_ /\
    (WITH_CUDA = true -> device = CUDA ->
     last (calls m')
     = Some (CrossCopy CPU CUDA (vector_data init_) (_data sv)
               (vector_size init_))) /\
    (device = CPU ->
     last (calls m')
     = Some (Copy CPU (vector_data init_) (_data sv) (vector_size init_))) /\
    (WITH_CUDA = false ->
     last (calls m')
     = Some (Copy CPU (vector_data init_) (_data sv) (vector_size init_))).
Proof.
  intros Hn Hsrc.
  destruct (resize_init shape_ T device m)
    as (sv & m1 & Hresize & HT & Hdev & Hsize & Hshape & Hdst & Hkeep).
  assert (Hn' : vector_size init_ = _size sv) by congruence.
  rewrite <- Hn in Hdst. apply Hkeep in Hsrc.
  destruct (copy_cells (vector_data init_) (vector_size init_) sv m1 Hsrc Hdst)
    as (cs & h' & Hread & Hwrite & _).
  eexists sv, _. split.
  - unfold StorageView_vector, bind. rewrite Hresize.
    apply (copy_from_run _ _ _ _ _ _ _ cs h'); [congruence|assumption..].
  - split; [exact Hdev|]. split; [exact Hshape|]. simpl.
    rewrite last_snoc, Hdev. split; [|split].
    + intros -> ->. reflexivity.
    + intros ->. rewrite andb_false_r. reflexivity.
    + intros ->. reflexivity.
Qed.

Lemma vector_constructor_copies_from_host_witness :
  exists sv m',
    StorageView_vector true [2] DT_FLOAT vector_7_8 CUDA machine_vector
    = Ok (sv, m') /\
    _device sv = CUDA /\
    last (calls m')
    = Some (CrossCopy CPU CUDA (Ptr 1%positive 0) (_data sv) 2).
Proof.
  assert (Hsrc : valid_range (heap machine_vector) (vector_data vector_7_8)
                   (vector_size vector_7_8)).
  { right. exists 1%positive, 0, [Some 7; Some 8].
    repeat split; try reflexivity; simpl; lia. }
  destruct (vector_constructor_copies_from_host true [2] DT_FLOAT vector_7_8
              CUDA machine_vector eq_refl Hsrc)
    as (sv & m' & Hrun & Hdev & _ & Hcross & _).
  exists sv, m'. split; [exact Hrun|]. split; [exact Hdev|].
  apply Hcross; reflexivity.
Defined.

(** * Further properties of the members defined in the header *)

(** ** Element access *)

Lemma index_loop_range strides_ rest : forall i offset k,
  is_size_t offset ->
  index_loop strides_ i rest offset = Ok k -> is_size_t k.
Proof.
  induction rest as [|x rest IH]; intros i offset k Hoff H; simpl in H.
  - injection H as <-. exact Hoff.
  - destruct (strides_ !! i) as [s|]; [|discriminate].
    eapply IH; [|exact H]. apply wrap_range.
Qed.

Lemma index_Ok (T : DataType) (indices : list Z) (sv : StorageView) (p : ptr) :
  index T indices sv = Ok p ->
  T = _dtype sv /\
  exists k, 0 <= k < _size sv /\ p = ptr_add (_data sv) k.
Proof.
  unfold index, data. intros H.
  destruct (bool_decide_reflect (T = _dtype sv)) as [HT|]; [|discriminate].
  simpl in H.
  destruct (index_loop (_strides sv) 0 indices 0) as [k| |] eqn:Hloop;
    [|discriminate..].
  simpl in H.
  destruct (bool_decide_reflect (k < _size sv)) as [Hk|]; [|discriminate].
  simpl in H. injection H as <-.
  apply index_loop_range in Hloop; [|apply is_size_t_0].
  split; [exact HT|]. exists k. unfold is_size_t in Hloop. split; [lia|reflexivity].
Qed.

Lemma load_in_valid_range (h : gmap block (list cell)) (p : ptr) (n k : Z) :
  valid_range h p n -> 0 <= k < n -> is_Some (load h (ptr_add p k)).
Proof.
  intros [->|(b & off & l & -> & Hb & Hoff & Hn & Hlen)] Hk; [lia|].
  simpl. rewrite decide_True by lia. rewrite Hb.
  apply lookup_lt_is_Some_2. lia.
Qed.

(** X1. Whatever the index vector, a pointer that [index<T>] or [at<T>]
    returns is [data + k] for some k below the logical size: element access
    never hands out an address outside the logical extent of the buffer, and
    on an empty storage it never succeeds. *)
Theorem element_access_stays_in_bounds (T : DataType) (indices : list Z)
  (i : Z) (sv : StorageView) (p : ptr) :
  index T indices sv = Ok p \/ at_indices T indices sv = Ok p \/
  (0 <= i /\ at_flat T i sv = Ok p) ->
  T = _dtype sv /\
  (exists k, 0 <= k < _size sv /\ p = ptr_add (_data sv) k) /\
  _size sv <> 0 /\
  (forall m, valid_range (heap m) (_data sv) (_size sv) ->
             is_Some (load (heap m) p)).
Proof.
  intros H.
  assert (Hk : T = _dtype sv /\
               exists k, 0 <= k < _size sv /\ p = ptr_add (_data sv) k).
  { destruct H as [H|[H|[Hi H]]].
    - apply index_Ok in H. exact H.
    - unfold at_indices in H.
      destruct (index T indices sv) as [q| |] eqn:Hq; [|discriminate..].
      simpl in H. injection H as <-. rewrite ptr_add_0.
      apply index_Ok in Hq. exact Hq.
    - unfold at_flat, data in H.
      destruct (bool_decide_reflect (i < _size sv)) as [Hlt|]; [|discriminate].
      simpl in H.
      destruct (bool_decide_reflect (T = _dtype sv)) as [HT|]; [|discriminate].
      simpl in H. injection H as <-. split; [exact HT|].
      exists i. split; [lia|reflexivity]. }
  destruct Hk as (HT & k & Hk & ->).
  split; [exact HT|]. split; [exists k; split; [exact Hk|reflexivity]|].
  split; [lia|].
  intros m Hv. apply (load_in_valid_range _ _ _ _ Hv Hk).
Qed.

Lemma element_access_stays_in_bounds_witness :
  index DT_FLOAT [1; 2] view_2x3 = Ok (Ptr 1%positive 5) /\
  is_Some (load (heap machine_2x3) (Ptr 1%positive 5)).
Proof.
  assert (H : index DT_FLOAT [1; 2] view_2x3 = Ok (Ptr 1%positive 5))
    by reflexivity.
  split; [exact H|].
  destruct (element_access_stays_in_bounds DT_FLOAT [1; 2] 0 view_2x3
              (Ptr 1%positive 5) (or_introl H)) as (_ & _ & _ & Hload).
  apply Hload. right. exists 1%positive, 0, (replicate 6 (Some 1)).
  repeat split; try reflexivity; simpl; lia.
Defined.

(** ** Row-major indexing *)

Lemma strides_cons (d : Z) (s : Shape) :
  strides (d :: s) = wrap (product s) :: strides s.
Proof.
  unfold strides. simpl length. rewrite <- cons_seq. simpl map.
  unfold shape_stride at 1. simpl drop. rewrite drop_0. f_equal.
  rewrite <- fmap_S_seq. rewrite <- list_fmap_compose.
  apply list_fmap_ext. intros i x _. reflexivity.
Qed.

Lemma in_shape_length (indices : list Z) (s : Shape) :
  in_shape indices s -> length indices = length s.
Proof. apply Forall2_length. Qed.

Lemma in_shape_product_pos (indices : list Z) (s : Shape) :
  in_shape indices s -> 1 <= product s.
Proof.
  induction 1 as [|i d indices s Hi _ IH]; simpl; [lia|]. nia.
Qed.

(** The offset of an in-range index vector under row-major strides, when the
    element count fits [size_t]. *)
Lemma flat_offset_in_shape (indices : list Z) (s : Shape) :
  in_shape indices s -> product s < 2 ^ SIZE_BITS ->
  0 <= flat_offset indices (strides s) < product s.
Proof.
  induction 1 as [|i d indices s Hi Hrest IH]; intros Hp.
  - unfold flat_offset. simpl. lia.
  - pose proof (in_shape_product_pos _ _ Hrest) as Hpos.
    simpl in Hp. assert (Hps : product s < 2 ^ SIZE_BITS) by nia.
    specialize (IH Hps). rewrite strides_cons.
    unfold flat_offset in *. cbn [zip_with foldr].
    rewrite wrap_small by (unfold is_size_t; lia).
    simpl product. nia.
Qed.

Lemma strides_length_eq (s : Shape) : length (strides s) = length s.
Proof. unfold strides. rewrite length_map, length_seq. reflexivity. Qed.

Lemma index_in_shape_run (T : DataType) (indices : list Z) (sv : StorageView) :
  T = _dtype sv ->
  _strides sv = strides (_shape sv) -> _size sv = size (_shape sv) ->
  product (_shape sv) < 2 ^ SIZE_BITS ->
  indices <> [] -> in_shape indices (_shape sv) ->
  0 <= flat_offset indices (strides (_shape sv)) < _size sv /\
  index T indices sv
  = Ok (ptr_add (_data sv) (flat_offset indices (strides (_shape sv)))).
Proof.
  intros HT Hstrides Hsize Hp Hne Hin.
  pose proof (flat_offset_in_shape _ _ Hin Hp) as Hoff.
  pose proof (in_shape_product_pos _ _ Hin) as Hpos.
  assert (Hsz : _size sv = product (_shape sv)).
  { rewrite Hsize. destruct (_shape sv) as [|d s] eqn:Hs.
    - inversion Hin. congruence.
    - unfold size. apply wrap_small. unfold is_size_t. lia. }
  split; [lia|].
  rewrite index_eq
    by (rewrite Hstrides, strides_length_eq, (in_shape_length _ _ Hin); lia).
  rewrite Hstrides, (bool_decide_eq_true_2 _ HT).
  rewrite wrap_small by (unfold is_size_t; lia).
  rewrite bool_decide_eq_true_2 by lia. reflexivity.
Qed.

(** X2. On a storage whose strides are the row-major strides of its shape
    and whose logical size is the element count of the shape, every index
    vector with one index per dimension, each below its dimension, is
    accepted by [index<T>], and the offset is the integer sum (nothing
    wraps). *)
Theorem index_accepts_indices_in_shape (T : DataType) (indices : list Z)
  (sv : StorageView) :
  T = _dtype sv ->
  _strides sv = strides (_shape sv) -> _size sv = size (_shape sv) ->
  product (_shape sv) < 2 ^ SIZE_BITS ->
  indices <> [] -> in_shape indices (_shape sv) ->
  index T indices sv
  = Ok (ptr_add (_data sv) (flat_offset indices (strides (_shape sv)))) /\
  0 <= flat_offset indices (strides (_shape sv)) < _size sv.
Proof.
  intros HT Hstrides Hsize Hp Hne Hin.
  destruct (index_in_shape_run T indices sv HT Hstrides Hsize Hp Hne Hin)
    as [Hoff Hrun].
  split; [exact Hrun|exact Hoff].
Qed.

Lemma view_2x3_in_shape : in_shape [1; 2] (_shape view_2x3).
Proof. repeat constructor; simpl; lia. Defined.

Lemma index_accepts_indices_in_shape_witness :
  index DT_FLOAT [1; 2] view_2x3 = Ok (Ptr 1%positive 5).
Proof.
  apply (index_accepts_indices_in_shape DT_FLOAT [1; 2] view_2x3);
    first [reflexivity | discriminate | exact view_2x3_in_shape].
Defined.

Lemma flat_offset_injective (s : Shape) : forall i1 i2,
  in_shape i1 s -> in_shape i2 s -> product s < 2 ^ SIZE_BITS ->
  flat_offset i1 (strides s) = flat_offset i2 (strides s) -> i1 = i2.
Proof.
  induction s as [|d s IH]; intros i1 i2 H1 H2 Hp Heq.
  - inversion H1. inversion H2. reflexivity.
  - inversion H1 as [|a d1 r1 s1 Ha Hr1]; subst.
    inversion H2 as [|b d2 r2 s2 Hb Hr2]; subst.
    pose proof (in_shape_product_pos _ _ Hr1) as Hpos.
    simpl in Hp. assert (Hps : product s < 2 ^ SIZE_BITS) by nia.
    pose proof (flat_offset_in_shape _ _ Hr1 Hps) as Ho1.
    pose proof (flat_offset_in_shape _ _ Hr2 Hps) as Ho2.
    rewrite strides_cons in Heq. unfold flat_offset in *.
    cbn [zip_with foldr] in Heq.
    rewrite wrap_small in Heq by (unfold is_size_t; lia).
    assert (Hab : a = b) by nia. subst b.
    f_equal. apply IH; try assumption. lia.
Qed.

Lemma ptr_add_injective (p : ptr) (k1 k2 : Z) :
  p <> nullptr -> ptr_add p k1 = ptr_add p k2 -> k1 = k2.
Proof.
  destruct p as [|b off]; [congruence|]. simpl. intros _ [= H]. lia.
Qed.

(** X3. Under row-major strides, two index vectors that are each within the
    shape and that [index<T>] maps to the same element are the same vector:
    distinct in-range indices never alias. *)
Theorem index_in_shape_never_aliases (T : DataType) (i1 i2 : list Z)
  (sv : StorageView) (p : ptr) :
  _strides sv = strides (_shape sv) ->
  product (_shape sv) < 2 ^ SIZE_BITS ->
  _data sv <> nullptr ->
  in_shape i1 (_shape sv) -> in_shape i2 (_shape sv) ->
  index T i1 sv = Ok p -> index T i2 sv = Ok p ->
  i1 = i2.
Proof.
  intros Hstrides Hp Hdata H1 H2 Hp1 Hp2.
  pose proof (flat_offset_in_shape _ _ H1 Hp) as Ho1.
  pose proof (flat_offset_in_shape _ _ H2 Hp) as Ho2.
  rewrite index_eq in Hp1
    by (rewrite Hstrides, strides_length_eq, (in_shape_length _ _ H1); lia).
  rewrite index_eq in Hp2
    by (rewrite Hstrides, strides_length_eq, (in_shape_length _ _ H2); lia).
  rewrite Hstrides in Hp1, Hp2.
  rewrite wrap_small in Hp1 by (unfold is_size_t; lia).
  rewrite wrap_small in Hp2 by (unfold is_size_t; lia).
  destruct (bool_decide (T = _dtype sv)); [|discriminate].
  destruct (bool_decide (flat_offset i1 _ < _size sv)); [|discriminate].
  destruct (bool_decide (flat_offset i2 _ < _size sv)); [|discriminate].
  injection Hp1 as <-. injection Hp2 as Heq.
  apply ptr_add_injective in Heq; [|exact Hdata].
  apply (flat_offset_injective (_shape sv)); try assumption. congruence.
Qed.

Lemma index_in_shape_never_aliases_witness :
  index DT_FLOAT [1; 2] view_2x3 = Ok (Ptr 1%positive 5) /\
  (forall i2, in_shape i2 (_shape view_2x3) ->
              index DT_FLOAT i2 view_2x3 = Ok (Ptr 1%positive 5) ->
              [1; 2] = i2).
Proof.
  split; [reflexivity|]. intros i2 H2 Hp2.
  apply (index_in_shape_never_aliases DT_FLOAT [1; 2] i2 view_2x3
           (Ptr 1%positive 5));
    first [assumption | reflexivity | discriminate | exact view_2x3_in_shape].
Defined.

Lemma flat_offset_zeros (k : nat) : forall st,
  flat_offset (replicate k 0) st = 0.
Proof.
  induction k as [|k IH]; intros [|s st]; try reflexivity.
  unfold flat_offset in *. cbn [replicate zip_with foldr]. rewrite IH. lia.
Qed.

Lemma flat_offset_app_zeros (indices : list Z) (k : nat) : forall st,
  flat_offset (indices ++ replicate k 0) st = flat_offset indices st.
Proof.
  induction indices as [|x indices IH]; intros st.
  - simpl. rewrite flat_offset_zeros. destruct st; reflexivity.
  - destruct st as [|s st]; [reflexivity|].
    unfold flat_offset in *. cbn [app zip_with foldr]. rewrite IH. reflexivity.
Qed.

(** X4. [index<T>] and [at<T>] loop over the indices that are given: an
    index vector shorter than the rank addresses the first element of the
    sub-array it selects, exactly as if the missing trailing indices were
    0. *)
Theorem index_missing_trailing_indices_are_zero (T : DataType)
  (indices : list Z) (k : nat) (sv : StorageView) :
  (length indices + k <= length (_strides sv))%nat ->
  index T (indices ++ replicate k 0) sv = index T indices sv /\
  at_indices T (indices ++ replicate k 0) sv = at_indices T indices sv.
Proof.
  intros Hlen.
  assert (H : index T (indices ++ replicate k 0) sv = index T indices sv).
  { rewrite !index_eq by (rewrite ?length_app, ?length_replicate; lia).
    rewrite flat_offset_app_zeros. reflexivity. }
  split; [exact H|]. unfold at_indices. rewrite H. reflexivity.
Qed.

Lemma index_missing_trailing_indices_are_zero_witness :
  index DT_FLOAT [1; 0] view_2x3 = index DT_FLOAT [1] view_2x3 /\
  index DT_FLOAT [1] view_2x3 = Ok (Ptr 1%positive 3).
Proof.
  split; [|reflexivity].
  apply (index_missing_trailing_indices_are_zero DT_FLOAT [1] 1 view_2x3).
  simpl. lia.
Defined.

(** ** [fill] *)

Lemma fill_run (T : DataType) (v : value) (sv : StorageView) (m : machine)
  (h' : gmap block (list cell)) :
  T = _dtype sv ->
  write_cells (heap m) (_data sv) (replicate (Z.to_nat (_size sv)) (Some v))
  = Some h' ->
  fill T v sv m
  = Ok (sv, {| heap := h';
               calls := calls m ++
                        [Fill (_device sv) (_data sv) v (_size sv)] |}).
Proof.
  intros HT Hwrite. unfold fill, bind, assert, lift, data, rbind.
  rewrite (bool_decide_eq_true_2 _ HT). unfold rassert.
  destruct (_device sv); unfold DEVICE_DISPATCH, bind, lift, primitives.fill;
    rewrite Hwrite; reflexivity.
Qed.

Lemma fill_cells (v : value) (p : ptr) (n : Z) (h : gmap block (list cell)) :
  valid_range h p n ->
  exists h',
    write_cells h p (replicate (Z.to_nat n) (Some v)) = Some h' /\
    (forall k, 0 <= k < n -> load h' (ptr_add p k) = Some (Some v)) /\
    (forall q, ~ in_range p n q -> load h' q = load h q).
Proof.
  intros Hv.
  assert (Hn : Z.of_nat (@length cell (@replicate cell (Z.to_nat n) (Some v)))
               = n).
  { rewrite length_replicate.
    destruct Hv as [->|(_ & _ & _ & _ & _ & _ & ? & _)]; lia. }
  rewrite <- Hn in Hv.
  destruct (write_cells_valid _ _ _ Hv) as (h' & Hwrite & Hin & Hout).
  rewrite Hn in Hin, Hout. exists h'. split; [exact Hwrite|]. split.
  - intros k Hk. rewrite Hin by exact Hk. apply lookup_replicate_2. lia.
  - exact Hout.
Qed.

(** X5. [fill(value)] on a storage whose buffer holds its logical size sets
    every element below the logical size to the value, through one fill call
    on the device of the storage; the cells past the logical size (the unused
    capacity) and every other cell of memory keep their contents, and the
    object itself is unchanged. *)
Theorem fill_sets_the_logical_elements (T : DataType) (v : value)
  (sv : StorageView) (m : machine) :
  T = _dtype sv -> valid_range (heap m) (_data sv) (_size sv) ->
  exists m',
    fill T v sv m = Ok (sv, m') /\
    calls m' = calls m ++ [Fill (_device sv) (_data sv) v (_size sv)] /\
    (forall k, 0 <= k < _size sv ->
       load (heap m') (ptr_add (_data sv) k) = Some (Some v)) /\
    (forall q, ~ in_range (_data sv) (_size sv) q ->
       load (heap m') q = load (heap m) q).
Proof.
  intros HT Hv.
  destruct (fill_cells v _ _ _ Hv) as (h' & Hwrite & Hin & Hout).
  eexists. split; [apply (fill_run _ _ _ _ h'); assumption|].
  simpl. split; [reflexivity|]. split; assumption.
Qed.

Lemma fill_sets_the_logical_elements_witness :
  exists m',
    fill DT_FLOAT 9 (view_2x2 CPU) machine_2x2 = Ok (view_2x2 CPU, m') /\
    load (heap m') (Ptr 1%positive 3) = Some (Some 9) /\
    load (heap m') (Ptr 2%positive 0) = Some (Some 7).
Proof.
  destruct (fill_sets_the_logical_elements DT_FLOAT 9 (view_2x2 CPU)
              machine_2x2 eq_refl (machine_2x2_buffer CPU))
    as (m' & Hrun & _ & Hin & Hout).
  exists m'. split; [exact Hrun|]. split.
  - apply (Hin 3). simpl. lia.
  - rewrite Hout; [reflexivity|]. simpl. intros [[=] _].
Defined.

(** ** The shaped constructors *)

Lemma load_fresh_other (h : gmap block (list cell)) (b : block)
  (l : list cell) (q : ptr) (c : cell) :
  h !! b = None -> load h q = Some c ->
  load (<[b := l]> h) q = Some c /\ forall n, ~ in_range (Ptr b 0) n q.
Proof.
  intros Hb Hq. destruct q as [|b' off]; [discriminate|]. simpl in *.
  destruct (decide (0 <= off)); [|discriminate].
  assert (Hne : b <> b').
  { intros <-. rewrite Hb in Hq. discriminate. }
  rewrite lookup_insert_ne by exact Hne. split; [exact Hq|]. tauto.
Qed.

(** The [resize] that starts every shaped constructor, with what it does to
    memory: a buffer of exactly [size shape_] indeterminate cells, away from
    every cell that was live. *)
Lemma resize_init_memory (shape_ : Shape) (T : DataType) (device : Device)
  (m : machine) :
  exists sv m',
    resize shape_ (init T device) m = Ok (sv, m') /\
    _dtype sv = T /\ _device sv = device /\ _own_data sv = true /\
    _size sv = size shape_ /\ _allocated_size sv = size shape_ /\
    _shape sv = shape_ /\ _strides sv = strides shape_ /\
    valid_range (heap m') (_data sv) (size shape_) /\
    (forall p n, valid_range (heap m) p n -> valid_range (heap m') p n) /\
    (forall q c, load (heap m) q = Some c ->
       load (heap m') q = Some c /\ ~ in_range (_data sv) (size shape_) q).
Proof.
  pose proof (size_range shape_) as Hrange. unfold is_size_t in Hrange.
  destruct (decide (size shape_ = 0)) as [Hzero|Hpos].
  - eexists _, m. split.
    + apply resize_within_capacity. simpl. lia.
    + simpl. rewrite Hzero. do 7 (split; [reflexivity|]).
      split; [left; reflexivity|]. split; [intros p n H; exact H|].
      intros q c H. split; [exact H|]. tauto.
  - destruct (resize_beyond_capacity shape_ (init T device) m)
      as (m1 & b & Hfree & Hb & Hrun); [reflexivity|exact I|simpl; lia|].
    injection Hfree as <-.
    eexists _, _. split; [exact Hrun|]. simpl.
    do 7 (split; [reflexivity|]).
    split; [apply valid_range_new_block; lia|].
    split; [intros p n H; apply valid_range_fresh_block; assumption|].
    intros q c H.
    destruct (load_fresh_other _ _ (replicate (Z.to_nat (size shape_)) None)
                _ _ Hb H) as [H1 H2].
    split; [exact H1|apply H2].
Qed.

(** X6. The shaped constructor with a fill value always succeeds, in every
    memory and for every shape: it returns an owning storage of the requested
    type, device and shape whose elements all read the initial value, and it
    leaves every cell that was live as it was. *)
Theorem StorageView_fill_constructs (shape_ : Shape) (T : DataType)
  (init_ : value) (device : Device) (m : machine) :
  exists sv m',
    StorageView_fill shape_ T init_ device m = Ok (sv, m') /\
    _dtype sv = T /\ _device sv = device /\ _own_data sv = true /\
    _shape sv = shape_ /\ _size sv = size shape_ /\
    (forall k, 0 <= k < size shape_ ->
       load (heap m') (ptr_add (_data sv) k) = Some (Some init_)) /\
    (forall q c, load (heap m) q = Some c -> load (heap m') q = Some c).
Proof.
  destruct (resize_init_memory shape_ T device m)
    as (sv & m1 & Hresize & HT & Hdev & Hown & Hsize & _ & Hshape & _ & Hv
        & _ & Hold).
  rewrite <- Hsize in Hv.
  destruct (fill_cells init_ _ _ _ Hv) as (h' & Hwrite & Hin & Hout).
  exists sv. eexists. split.
  - unfold StorageView_fill, bind. rewrite Hresize.
    apply (fill_run _ _ _ _ h'); [congruence|exact Hwrite].
  - simpl. do 5 (split; [assumption|]). split.
    + intros k Hk. apply Hin. lia.
    + intros q c Hq. destruct (Hold q c Hq) as [Hq1 Hq2].
      rewrite Hout; [exact Hq1|]. rewrite Hsize. exact Hq2.
Qed.

(** X7. The scalar constructor always succeeds and returns a storage of
    shape [1] holding one element, and [scalar_at({0})] on it reads the
    scalar back, on either device. *)
Theorem StorageView_scalar_roundtrip (T : DataType) (scalar : value)
  (device : Device) (m : machine) :
  exists sv m',
    StorageView_scalar T scalar device m = Ok (sv, m') /\
    _shape sv = [1] /\ _size sv = 1 /\ _device sv = device /\
    scalar_at T [0] sv m' = Ok (scalar, m').
Proof.
  destruct (resize_init_memory [1] T device m)
    as (sv & m1 & Hresize & HT & Hdev & _ & Hsize & _ & Hshape & Hstrides & Hv
        & _ & _).
  rewrite <- Hsize in Hv. change (size [1]) with 1 in Hsize.
  destruct (fill_cells scalar _ _ _ Hv) as (h' & Hwrite & Hin & _).
  exists sv. eexists. split.
  - unfold StorageView_scalar, bind. rewrite Hresize.
    apply (fill_run _ _ _ _ h'); [congruence|exact Hwrite].
  - split; [exact Hshape|]. split; [exact Hsize|]. split; [exact Hdev|].
    assert (Hindex : index T [0] sv = Ok (ptr_add (_data sv) 0)).
    { rewrite index_eq by (rewrite Hstrides; simpl; lia).
      rewrite Hstrides, Hsize, (bool_decide_eq_true_2 _ (eq_sym HT)).
      reflexivity. }
    assert (Hload : load h' (ptr_add (ptr_add (_data sv) 0) 0)
                    = Some (Some scalar)).
    { rewrite ptr_add_0. apply Hin. rewrite Hsize. lia. }
    unfold scalar_at.
    destruct (_device sv); unfold DEVICE_DISPATCH, bind, lift;
      rewrite Hindex; unfold primitives.deref; simpl heap;
      rewrite Hload; reflexivity.
Qed.

(** X8. Constructing from a [std::vector] whose length is the element count
    of the shape copies the vector: the elements of the new storage read as
    the elements of the vector, in order, the storage owns its buffer, and
    the vector and every other live cell are left as they were. *)
Theorem StorageView_vector_copies_the_vector (WITH_CUDA : bool)
  (shape_ : Shape) (T : DataType) (init_ : vector) (device : Device)
  (m : machine) :
  vector_size init_ = size shape_ ->
  valid_range (heap m) (vector_data init_) (vector_size init_) ->
  exists sv m',
    StorageView_vector WITH_CUDA shape_ T init_ device m = Ok (sv, m') /\
    _own_data sv = true /\ _size sv = vector_size init_ /\
    (forall k, 0 <= k < vector_size init_ ->
       load (heap m') (ptr_add (_data sv) k)
       = load (heap m) (ptr_add (vector_data init_) k)) /\
    (forall q c, load (heap m) q = Some c -> load (heap m') q = Some c).
Proof.
  intros Hn Hsrc.
  destruct (resize_init_memory shape_ T device m)
    as (sv & m1 & Hresize & HT & Hdev & Hown & Hsize & _ & _ & _ & Hdst
        & Hkeep & Hold).
  assert (Hn' : vector_size init_ = _size sv) by congruence.
  rewrite <- Hn in Hdst.
  destruct (copy_cells (vector_data init_) (vector_size init_) sv m1
              (Hkeep _ _ Hsrc) Hdst)
    as (cs & h' & Hread & Hwrite & Hin & Hout).
  exists sv. eexists. split.
  - unfold StorageView_vector, bind. rewrite Hresize.
    apply (copy_from_run _ _ _ _ _ _ _ cs h'); [congruence|assumption..].
  - simpl. split; [exact Hown|]. split; [congruence|]. split.
    + intros k Hk. rewrite Hin by exact Hk.
      destruct (load_in_valid_range _ _ _ _ Hsrc Hk) as [c Hc].
      rewrite Hc. apply (Hold _ _ Hc).
    + intros q c Hq. destruct (Hold q c Hq) as [Hq1 Hq2].
      rewrite Hout; [exact Hq1|]. rewrite Hn. exact Hq2.
Qed.

Lemma machine_vector_source :
  valid_range (heap machine_vector) (vector_data vector_7_8)
    (vector_size vector_7_8).
Proof.
  right. exists 1%positive, 0, [Some 7; Some 8].
  repeat split; try reflexivity; simpl; lia.
Defined.

Lemma StorageView_vector_copies_the_vector_witness :
  exists sv m',
    StorageView_vector true [2] DT_FLOAT vector_7_8 CUDA machine_vector
    = Ok (sv, m') /\
    load (heap m') (ptr_add (_data sv) 1) = Some (Some 8) /\
    load (heap m') (Ptr 1%positive 1) = Some (Some 8).
Proof.
  destruct (StorageView_vector_copies_the_vector true [2] DT_FLOAT vector_7_8
              CUDA machine_vector eq_refl machine_vector_source)
    as (sv & m' & Hrun & _ & _ & Hin & Hold).
  exists sv, m'. split; [exact Hrun|]. split.
  - rewrite (Hin 1) by (simpl; lia). reflexivity.
  - apply Hold. reflexivity.
Defined.

(** X9. Constructing from a [std::vector] whose length is not the element
    count of the shape fails the assertion of [copy_from], whatever the
    type, the device and the build. *)
Theorem StorageView_vector_requires_matching_length (WITH_CUDA : bool)
  (shape_ : Shape) (T : DataType) (init_ : vector) (device : Device)
  (m : machine) :
  vector_size init_ <> size shape_ ->
  StorageView_vector WITH_CUDA shape_ T init_ device m = AssertionFailed.
Proof.
  intros Hn.
  destruct (resize_init_memory shape_ T device m)
    as (sv & m1 & Hresize & _ & _ & _ & Hsize & _).
  unfold StorageView_vector, bind. rewrite Hresize.
  apply copy_from_size_mismatch. congruence.
Qed.

Lemma StorageView_vector_requires_matching_length_witness :
  vector_size vector_7_8 <> size [3] /\
  StorageView_vector true [3] DT_FLOAT vector_7_8 CPU machine_vector
  = AssertionFailed.
Proof.
  assert (Hne : vector_size vector_7_8 <> size [3]) by (vm_compute; discriminate).
  split; [exact Hne|].
  apply (StorageView_vector_requires_matching_length true [3] DT_FLOAT
           vector_7_8 CPU machine_vector Hne).
Defined.

(** ** Borrowed buffers *)

Lemma StorageView_buffer_run (shape_ : Shape) (T : DataType) (data_ : ptr)
  (device : Device) (m : machine) :
  StorageView_buffer shape_ T data_ device m
  = Ok ({| _dtype := T; _device := device; _data := data_;
           _own_data := false; _allocated_size := size shape_;
           _size := size shape_; _shape := shape_;
           _strides := strides shape_ |}, m).
Proof.
  unfold StorageView_buffer, assign, bind, assert, lift, release. simpl.
  rewrite bool_decide_eq_true_2 by reflexivity. simpl.
  rewrite reshape_Ok by reflexivity. reflexivity.
Qed.

(** X10. The constructor from a buffer never fails, allocates nothing and
    copies nothing, for any pointer (the null pointer included) and any
    shape: the machine is left as it is, the storage does not own the
    buffer, its capacity and logical size are the element count of the
    shape, and [at<T>(k)] is the address [data + k] of the given buffer for
    every k below that count. *)
Theorem StorageView_buffer_wraps_without_check (shape_ : Shape) (T : DataType)
  (data_ : ptr) (device : Device) (m : machine) :
  exists sv,
    StorageView_buffer shape_ T data_ device m = Ok (sv, m) /\
    _own_data sv = false /\ _data sv = data_ /\
    _size sv = size shape_ /\ _allocated_size sv = size shape_ /\
    _shape sv = shape_ /\
    (forall k, k < size shape_ -> at_flat T k sv = Ok (ptr_add data_ k)) /\
    destroy sv m = Ok (tt, m).
Proof.
  eexists. split; [apply StorageView_buffer_run|]. simpl.
  do 5 (split; [reflexivity|]). split.
  - intros k Hk. unfold at_flat, data. simpl.
    rewrite bool_decide_eq_true_2 by exact Hk. simpl.
    rewrite bool_decide_eq_true_2 by reflexivity. reflexivity.
  - reflexivity.
Qed.

(** X11. A storage constructed over an external buffer is a view of it: a
    [fill] through the storage writes the cells of the external buffer, the
    only call made is that fill (nothing is allocated or freed), and
    destroying the storage afterwards leaves the buffer live with the
    written contents. *)
Theorem StorageView_buffer_writes_through (shape_ : Shape) (T : DataType)
  (data_ : ptr) (device : Device) (v : value) (m : machine) :
  valid_range (heap m) data_ (size shape_) ->
  exists sv m',
    (do sv <- StorageView_buffer shape_ T data_ device in fill T v sv) m
    = Ok (sv, m') /\
    calls m' = calls m ++ [Fill device data_ v (size shape_)] /\
    (forall k, 0 <= k < size shape_ ->
       load (heap m') (ptr_add data_ k) = Some (Some v)) /\
    (forall q, ~ in_range data_ (size shape_) q ->
       load (heap m') q = load (heap m) q) /\
    destroy sv m' = Ok (tt, m').
Proof.
  intros Hv.
  destruct (fill_cells v _ _ _ Hv) as (h' & Hwrite & Hin & Hout).
  eexists _, _. split.
  - unfold bind at 1. rewrite StorageView_buffer_run.
    apply (fill_run _ _ _ _ h'); [reflexivity|exact Hwrite].
  - simpl. split; [reflexivity|]. split; [exact Hin|]. split; [exact Hout|].
    reflexivity.
Qed.

Lemma StorageView_buffer_writes_through_witness :
  exists sv m',
    (do sv <- StorageView_buffer [2; 2] DT_FLOAT (Ptr 2%positive 0) CPU in
     fill DT_FLOAT 3 sv) machine_2x2 = Ok (sv, m') /\
    load (heap m') (Ptr 2%positive 3) = Some (Some 3) /\
    destroy sv m' = Ok (tt, m').
Proof.
  destruct (StorageView_buffer_writes_through [2; 2] DT_FLOAT (Ptr 2%positive 0)
              CPU 3 machine_2x2 machine_2x2_source)
    as (sv & m' & Hrun & _ & Hin & _ & Hdestroy).
  exists sv, m'. split; [exact Hrun|]. split; [|exact Hdestroy].
  apply (Hin 3). vm_compute. split; [discriminate|reflexivity].
Defined.

(** ** [assign] over the object's own buffer *)

Lemma fill_dead_buffer (T : DataType) (v : value) (sv : StorageView)
  (m : machine) (b : block) (off : Z) :
  T = _dtype sv -> 0 < _size sv -> _data sv = Ptr b off ->
  heap m !! b = None ->
  fill T v sv m = Undefined.
Proof.
  intros HT Hpos Hdata Hb. unfold fill, bind, assert, lift, data, rbind.
  rewrite (bool_decide_eq_true_2 _ HT). unfold rassert.
  destruct (_device sv); unfold DEVICE_DISPATCH, bind, lift, primitives.fill;
    rewrite Hdata; (destruct (Z.to_nat (_size sv)) eqn:Hn; [lia|]);
    simpl; rewrite Hb; reflexivity.
Qed.

(** X12. [assign] releases the owned buffer before it stores the pointer it
    is given.  Assigning to an owning storage a pointer to its own buffer
    therefore succeeds and leaves it borrowing a buffer that has just been
    freed: no cell of it can be read any more.  With a shape that is no part
    of the object and holds at least one element, a [fill] through the
    storage is then undefined; with the object's own shape
    ([sv.assign(sv.data<T>(), sv.shape())]) the storage ends empty, and a
    [fill] writes nothing. *)
Theorem assign_of_own_buffer_dangles (T : DataType) (r : shape_ref)
  (sv : StorageView) (m : machine) (b : block) :
  T = _dtype sv -> _own_data sv = true -> _data sv = Ptr b 0 ->
  is_Some (heap m !! b) ->
  exists sv' m',
    assign T (_data sv) r sv m = Ok (sv', m') /\
    _data sv' = Ptr b 0 /\ _own_data sv' = false /\
    _size sv' = size (shape_read_by_assign r) /\
    heap m' = delete b (heap m) /\
    (forall k, load (heap m') (ptr_add (_data sv') k) = None) /\
    (0 < size (shape_read_by_assign r) ->
     forall v, fill T v sv' m' = Undefined) /\
    (r = this_shape ->
     _size sv' = 0 /\ _shape sv' = [] /\
     forall v, exists m'',
       fill T v sv' m' = Ok (sv', m'') /\ heap m'' = heap m').
Proof.
  intros HT Hown Hdata [l Hl].
  assert (Hfree : free_owned sv m
                  = Ok (tt, {| heap := delete b (heap m);
                               calls := calls m ++ [Free (_device sv) b] |})).
  { unfold free_owned, owned_buffer. rewrite Hown, Hdata. simpl.
    unfold free_data. rewrite Hl. reflexivity. }
  eexists _, _. split; [apply assign_run; [exact HT|exact Hfree]|].
  simpl. rewrite Hdata. do 4 (split; [reflexivity|]). split; [|split].
  - intros k. simpl. destruct (decide (0 <= 0 + k)); [|reflexivity].
    rewrite lookup_delete_eq. reflexivity.
  - intros Hpos v. apply (fill_dead_buffer _ _ _ _ b 0); simpl;
      first [assumption | reflexivity | apply lookup_delete_eq].
  - intros ->. simpl. split; [reflexivity|]. split; [reflexivity|].
    intros v. eexists. split.
    + apply fill_run; [exact HT|]. reflexivity.
    + reflexivity.
Qed.

Lemma assign_of_own_buffer_dangles_witness :
  exists sv' m',
    assign DT_FLOAT (Ptr 1%positive 0) (a_shape [2; 3]) view_2x3 machine_2x3
    = Ok (sv', m') /\
    heap m' = ∅ /\
    fill DT_FLOAT 0 sv' m' = Undefined.
Proof.
  destruct (assign_of_own_buffer_dangles DT_FLOAT (a_shape [2; 3]) view_2x3
              machine_2x3 1%positive eq_refl eq_refl eq_refl)
    as (sv' & m' & Hrun & _ & _ & _ & Hheap & _ & Hfill & _).
  - eexists. reflexivity.
  - exists sv', m'. split; [exact Hrun|]. split.
    + rewrite Hheap. vm_compute. reflexivity.
    + apply Hfill. vm_compute. reflexivity.
Defined.

(** ** [scalar_at] *)

(** X13. After [fill(value)], [scalar_at] reads that value at every index
    vector that [index<T>] accepts, on either device, and reading leaves the
    memory as the fill left it. *)
Theorem scalar_at_reads_what_fill_wrote (T : DataType) (v : value)
  (indices : list Z) (sv : StorageView) (p : ptr) (m : machine) :
  valid_range (heap m) (_data sv) (_size sv) ->
  index T indices sv = Ok p ->
  exists m',
    fill T v sv m = Ok (sv, m') /\
    scalar_at T indices sv m' = Ok (v, m').
Proof.
  intros Hv Hindex.
  destruct (index_Ok _ _ _ _ Hindex) as (HT & k & Hk & ->).
  destruct (fill_cells v _ _ _ Hv) as (h' & Hwrite & Hin & _).
  eexists. split; [apply (fill_run _ _ _ _ h'); assumption|].
  unfold scalar_at.
  destruct (_device sv); unfold DEVICE_DISPATCH, bind, lift;
    rewrite Hindex; unfold primitives.deref; simpl heap;
    rewrite ptr_add_0, (Hin k Hk); reflexivity.
Qed.

Lemma scalar_at_reads_what_fill_wrote_witness :
  exists m',
    fill DT_FLOAT 9 (view_2x2 CUDA) machine_2x2 = Ok (view_2x2 CUDA, m') /\
    scalar_at DT_FLOAT [1; 1] (view_2x2 CUDA) m' = Ok (9, m').
Proof.
  apply (scalar_at_reads_what_fill_wrote DT_FLOAT 9 [1; 1] (view_2x2 CUDA)
           (Ptr 1%positive 3) machine_2x2 (machine_2x2_buffer CUDA)).
  reflexivity.
Defined.

(** * Properties of the comparison helpers of the tests *)

Lemma read_holds (h : gmap block (list cell)) (x : ptr) (xs : list value)
  (k : nat) (a : value) :
  holds h x xs -> xs !! k = Some a -> read h (ptr_add x (Z.of_nat k)) = Ok a.
Proof. intros Hx Ha. unfold read. rewrite (Hx k a Ha). reflexivity. Qed.

(** What the loop of [expect_array_eq] records over two readable arrays:
    the failures of the comparison at each index, one index after the
    other. *)
Lemma expect_array_eq_loop_run (h : gmap block (list cell)) (x y : ptr)
  (abs_diff : Z) (xs ys : list value) :
  length xs = length ys -> holds h x xs -> holds h y ys ->
  forall (r j : nat), (j + r = length xs)%nat ->
    expect_array_eq_loop h x y abs_diff (Z.of_nat j) r
    = Ok (concat (map (element_failures abs_diff xs ys) (seq j r))).
Proof.
  intros Hlen Hx Hy. induction r as [|r IH]; intros j Hj; [reflexivity|].
  destruct (lookup_lt_is_Some_2 xs j) as [a Ha]; [lia|].
  destruct (lookup_lt_is_Some_2 ys j) as [b Hb]; [lia|].
  cbn [expect_array_eq_loop].
  rewrite (read_holds _ _ _ _ _ Hx Ha), (read_holds _ _ _ _ _ Hy Hb).
  replace (Z.of_nat j + 1) with (Z.of_nat (S j)) by lia.
  rewrite IH by lia. cbn [rbind seq map concat].
  unfold element_failures at 2. rewrite Ha, Hb. reflexivity.
Qed.

Lemma element_failures_Some (abs_diff : Z) (xs ys : list value) (k : nat)
  (a b : value) :
  xs !! k = Some a -> ys !! k = Some b ->
  element_failures abs_diff xs ys k = expect_element abs_diff (Z.of_nat k) a b.
Proof. unfold element_failures. intros Ha Hb. rewrite Ha, Hb. reflexivity. Qed.

Lemma differs_at_Some (xs ys : list value) (k : nat) (a b : value) :
  xs !! k = Some a -> ys !! k = Some b ->
  differs_at xs ys k = negb (bool_decide (a = b)).
Proof. unfold differs_at. intros Ha Hb. rewrite Ha, Hb. reflexivity. Qed.

Lemma far_at_Some (abs_diff : Z) (xs ys : list value) (k : nat) (a b : value) :
  xs !! k = Some a -> ys !! k = Some b ->
  far_at abs_diff xs ys k = negb (near a b abs_diff).
Proof. unfold far_at. intros Ha Hb. rewrite Ha, Hb. reflexivity. Qed.

Lemma concat_map_filter (g : nat -> list failure) (P : nat -> bool)
  (F : nat -> failure) (l : list nat) :
  (forall k, k ∈ l -> g k = if P k then [F k] else []) ->
  concat (map g l) = F <$> filter (fun k => P k = true) l.
Proof.
  induction l as [|k l IH]; intros Hg; [reflexivity|].
  cbn [map concat]. rewrite filter_cons.
  rewrite (Hg k) by left. rewrite IH by (intros k' Hk'; apply Hg; right; exact Hk').
  destruct (P k).
  - rewrite decide_True by reflexivity. reflexivity.
  - rewrite decide_False by discriminate. reflexivity.
Qed.

Lemma nil_iff_no_element (fs : list failure) :
  fs = [] <-> forall f, f ∉ fs.
Proof.
  split.
  - intros -> f Hf. inversion Hf.
  - intros H. destruct fs as [|f fs]; [reflexivity|].
    exfalso. apply (H f). left.
Qed.

(** X14. With [abs_diff == 0], [expect_array_eq] over two readable arrays
    of [n] elements compares every pair (a mismatch does not stop it) and
    records exactly the list of the "value mismatch" failures of the indices
    at which the two arrays differ, one per index, in increasing order; it
    records nothing if and only if the arrays are equal. *)
Theorem expect_array_eq_reports_every_mismatch (h : gmap block (list cell))
  (x y : ptr) (n : Z) (xs ys : list value) :
  length xs = Z.to_nat n -> length ys = Z.to_nat n ->
  holds h x xs -> holds h y ys ->
  expect_array_eq h x y n 0
  = Ok ((fun k => ValueMismatchAt (Z.of_nat k))
          <$> filter (fun k => differs_at xs ys k = true)
                (seq 0 (Z.to_nat n))) /\
  (expect_array_eq h x y n 0 = Ok [] <-> xs = ys).
Proof.
  intros Hxs Hys Hx Hy.
  assert (Hrun : expect_array_eq h x y n 0
                 = Ok ((fun k => ValueMismatchAt (Z.of_nat k))
                         <$> filter (fun k => differs_at xs ys k = true)
                               (seq 0 (Z.to_nat n)))).
  { unfold expect_array_eq.
    pose proof (expect_array_eq_loop_run h x y 0 xs ys ltac:(lia) Hx Hy
                  (Z.to_nat n) 0 ltac:(lia)) as Hloop.
    change (Z.of_nat 0) with 0 in Hloop. rewrite Hloop.
    f_equal. apply concat_map_filter. intros k Hk.
    apply elem_of_seq in Hk.
    destruct (lookup_lt_is_Some_2 xs k) as [a Ha]; [lia|].
    destruct (lookup_lt_is_Some_2 ys k) as [b Hb]; [lia|].
    rewrite (element_failures_Some _ _ _ _ _ _ Ha Hb).
    rewrite (differs_at_Some _ _ _ _ _ Ha Hb).
    unfold expect_element. rewrite decide_True by reflexivity.
    destruct (decide (a = b)) as [Hab|Hab].
    - rewrite bool_decide_eq_true_2 by exact Hab. reflexivity.
    - rewrite bool_decide_eq_false_2 by exact Hab. reflexivity. }
  split; [exact Hrun|]. rewrite Hrun. split.
  - intros [= Hnil]. apply list_eq. intros k.
    destruct (xs !! k) as [a|] eqn:Ha.
    + destruct (lookup_lt_is_Some_2 ys k) as [b Hb].
      { apply lookup_lt_Some in Ha. lia. }
      rewrite Hb. destruct (decide (a = b)) as [->|Hne]; [reflexivity|].
      exfalso.
      apply (proj1 (nil_iff_no_element _) Hnil (ValueMismatchAt (Z.of_nat k))).
      apply list_elem_of_fmap. exists k. split; [reflexivity|].
      apply list_elem_of_filter. split.
      * unfold differs_at. rewrite Ha, Hb.
        rewrite bool_decide_eq_false_2 by exact Hne. reflexivity.
      * apply elem_of_seq. apply lookup_lt_Some in Ha. lia.
    + symmetry. apply lookup_ge_None. apply lookup_ge_None in Ha. lia.
  - intros <-. f_equal. apply nil_iff_no_element. intros f Hf.
    apply list_elem_of_fmap in Hf as (k & _ & Hk).
    apply list_elem_of_filter in Hk as [Hk _].
    unfold differs_at in Hk. destruct (xs !! k); [|discriminate].
    rewrite bool_decide_eq_true_2 in Hk by reflexivity. discriminate.
Qed.

Lemma to_double_exact (z : Z) : Z.abs z < 2 ^ 53 -> to_double z = z.
Proof.
  intros Hz. unfold to_double.
  destruct (Z.ltb_spec (Z.abs z) (2 ^ 53)) as [_|Hge]; [reflexivity|lia].
Qed.

(** The conversion rounds: 2^53 + 3 becomes 2^53 + 4, and 2^53 + 1 becomes
    2^53, so two 64-bit values that are 3 apart are seen 4 apart. *)
Example to_double_rounds_to_even :
  to_double (2 ^ 53 + 3) = 2 ^ 53 + 4 /\ to_double (2 ^ 53 + 1) = 2 ^ 53 /\
  to_double (- (2 ^ 53 + 3)) = - (2 ^ 53 + 4) /\
  expect_element 3 0 (2 ^ 53 + 3) (2 ^ 53) = [AbsoluteDifferenceAt 3 0].
Proof. vm_compute. repeat split. Qed.

Lemma near_exact (a b d : Z) :
  exact_in_double a -> exact_in_double b -> Z.abs d < 2 ^ 53 ->
  negb (near a b d) = (d <? Z.abs (a - b)).
Proof.
  unfold exact_in_double, near. intros Ha Hb Hd.
  rewrite (to_double_exact a), (to_double_exact b), (to_double_exact d),
    (to_double_exact (a - b)) by lia.
  symmetry. apply Z.ltb_antisym.
Qed.

Lemma far_at_exact (abs_diff : Z) (xs ys : list value) (k : nat) :
  Z.abs abs_diff < 2 ^ 53 ->
  Forall exact_in_double xs -> Forall exact_in_double ys ->
  far_at abs_diff xs ys k = exceeds_at abs_diff xs ys k.
Proof.
  intros Hd Hxs Hys. unfold far_at, exceeds_at.
  destruct (xs !! k) as [a|] eqn:Ha; [|reflexivity].
  destruct (ys !! k) as [b|] eqn:Hb; [|reflexivity].
  apply near_exact; [| |exact Hd].
  - eapply Forall_lookup_1; [exact Hxs|exact Ha].
  - eapply Forall_lookup_1; [exact Hys|exact Hb].
Qed.

Lemma to_double_negative (z : Z) : z < 0 -> to_double z < 0.
Proof.
  intros Hz. unfold to_double.
  destruct (Z.ltb_spec (Z.abs z) (2 ^ 53)) as [_|Hge]; [exact Hz|].
  assert (He : 53 <= Z.log2 (Z.abs z)).
  { change 53 with (Z.log2 (2 ^ 53)). apply Z.log2_le_mono. exact Hge. }
  assert (Hpow : 0 < 2 ^ (Z.log2 (Z.abs z) - 52)).
  { apply Z.pow_pos_nonneg; lia. }
  assert (Hle : 2 ^ (Z.log2 (Z.abs z) - 52) <= Z.abs z).
  { transitivity (2 ^ Z.log2 (Z.abs z)).
    - apply Z.pow_le_mono_r; lia.
    - apply Z.log2_spec. lia. }
  pose proof (Z.div_str_pos _ _ (conj Hpow Hle)) as Hq.
  rewrite Z.sgn_neg by exact Hz.
  destruct (_ || _); nia.
Qed.

Lemma near_negative (a b d : Z) : d < 0 -> near a b d = false.
Proof.
  intros Hd. unfold near. apply Z.leb_gt.
  pose proof (to_double_negative d Hd).
  pose proof (Z.abs_nonneg (to_double (to_double a - to_double b))). lia.
Qed.

Lemma filter_seq_all (P : nat -> bool) (l : list nat) :
  (forall k, k ∈ l -> P k = true) ->
  filter (fun k => P k = true) l = l.
Proof.
  induction l as [|k l IH]; intros H; [reflexivity|].
  rewrite filter_cons. rewrite decide_True by (apply H; left).
  rewrite IH by (intros k' Hk'; apply H; right; exact Hk'). reflexivity.
Qed.

(** X15. With [abs_diff != 0], [expect_array_eq] over two readable arrays
    records exactly the list of the "absolute difference" failures of the
    indices at which [EXPECT_NEAR] fails on the elements converted to double,
    one per index, in increasing order.  When the elements and [abs_diff]
    are exactly representable (element types of at most 52 bits), these are
    the indices at which the elements differ by more than [abs_diff].  With a
    negative [abs_diff] every index fails. *)
Theorem expect_array_eq_tolerance (h : gmap block (list cell))
  (x y : ptr) (n abs_diff : Z) (xs ys : list value) :
  abs_diff <> 0 ->
  length xs = Z.to_nat n -> length ys = Z.to_nat n ->
  holds h x xs -> holds h y ys ->
  expect_array_eq h x y n abs_diff
  = Ok ((fun k => AbsoluteDifferenceAt abs_diff (Z.of_nat k))
          <$> filter (fun k => far_at abs_diff xs ys k = true)
                (seq 0 (Z.to_nat n))) /\
  (Z.abs abs_diff < 2 ^ 53 ->
   Forall exact_in_double xs -> Forall exact_in_double ys ->
   expect_array_eq h x y n abs_diff
   = Ok ((fun k => AbsoluteDifferenceAt abs_diff (Z.of_nat k))
           <$> filter (fun k => exceeds_at abs_diff xs ys k = true)
                 (seq 0 (Z.to_nat n)))) /\
  (abs_diff < 0 ->
   expect_array_eq h x y n abs_diff
   = Ok ((fun k => AbsoluteDifferenceAt abs_diff (Z.of_nat k))
           <$> seq 0 (Z.to_nat n))).
Proof.
  intros Hd Hxs Hys Hx Hy.
  assert (Hrun : expect_array_eq h x y n abs_diff
                 = Ok ((fun k => AbsoluteDifferenceAt abs_diff (Z.of_nat k))
                         <$> filter (fun k => far_at abs_diff xs ys k = true)
                               (seq 0 (Z.to_nat n)))).
  { unfold expect_array_eq.
    pose proof (expect_array_eq_loop_run h x y abs_diff xs ys ltac:(lia) Hx Hy
                  (Z.to_nat n) 0 ltac:(lia)) as Hloop.
    change (Z.of_nat 0) with 0 in Hloop. rewrite Hloop.
    f_equal. apply concat_map_filter. intros k Hk.
    apply elem_of_seq in Hk.
    destruct (lookup_lt_is_Some_2 xs k) as [a Ha]; [lia|].
    destruct (lookup_lt_is_Some_2 ys k) as [b Hb]; [lia|].
    rewrite (element_failures_Some _ _ _ _ _ _ Ha Hb).
    rewrite (far_at_Some _ _ _ _ _ _ Ha Hb).
    unfold expect_element. rewrite decide_False by exact Hd.
    destruct (near a b abs_diff); reflexivity. }
  split; [exact Hrun|]. split.
  - intros Hsmall Hxe Hye. rewrite Hrun. do 2 f_equal.
    apply list_filter_iff. intros k.
    rewrite (far_at_exact abs_diff xs ys k Hsmall Hxe Hye). reflexivity.
  - intros Hneg. rewrite Hrun. do 2 f_equal.
    apply filter_seq_all. intros k Hk. apply elem_of_seq in Hk.
    destruct (lookup_lt_is_Some_2 xs k) as [a Ha]; [lia|].
    destruct (lookup_lt_is_Some_2 ys k) as [b Hb]; [lia|].
    rewrite (far_at_Some _ _ _ _ _ _ Ha Hb).
    rewrite near_negative by exact Hneg. reflexivity.
Qed.

Lemma machine_2x2_holds_source :
  holds (heap machine_2x2) (Ptr 2%positive 0) [7; 8; 9; 10].
Proof.
  intros k a H. destruct k as [|[|[|[|k]]]]; simpl in H; try discriminate;
    injection H as <-; reflexivity.
Defined.

Lemma machine_2x2_holds_buffer :
  holds (heap machine_2x2) (Ptr 1%positive 0) [1; 1; 1; 1].
Proof.
  intros k a H. destruct k as [|[|[|[|k]]]]; simpl in H; try discriminate;
    injection H as <-; reflexivity.
Defined.

Lemma expect_array_eq_reports_every_mismatch_witness :
  expect_array_eq (heap machine_2x2) (Ptr 1%positive 0) (Ptr 2%positive 0) 4 0
  = Ok [ValueMismatchAt 0; ValueMismatchAt 1; ValueMismatchAt 2;
        ValueMismatchAt 3].
Proof.
  destruct (expect_array_eq_reports_every_mismatch (heap machine_2x2)
              (Ptr 1%positive 0) (Ptr 2%positive 0) 4 [1; 1; 1; 1] [7; 8; 9; 10]
              eq_refl eq_refl machine_2x2_holds_buffer machine_2x2_holds_source)
    as [Hrun _].
  rewrite Hrun. reflexivity.
Defined.

Lemma expect_array_eq_tolerance_witness :
  expect_array_eq (heap machine_2x2) (Ptr 1%positive 0) (Ptr 2%positive 0) 4 7
  = Ok [AbsoluteDifferenceAt 7 2; AbsoluteDifferenceAt 7 3].
Proof.
  destruct (expect_array_eq_tolerance (heap machine_2x2)
              (Ptr 1%positive 0) (Ptr 2%positive 0) 4 7 [1; 1; 1; 1] [7; 8; 9; 10]
              ltac:(discriminate) eq_refl eq_refl machine_2x2_holds_buffer
              machine_2x2_holds_source)
    as [Hrun _].
  rewrite Hrun. reflexivity.
Defined.

(** The loop of [assert_vector_eq] on two vectors of one length: either the
    two agree from [i] on and nothing is recorded, or the first index at
    which they differ is recorded and nothing after it. *)
Lemma assert_vector_eq_loop_spec (got expected : list Z) :
  length got = length expected ->
  forall (r i : nat), (i + r = length got)%nat ->
    (drop i got = drop i expected /\
     assert_vector_eq_loop got expected i r = Ok []) \/
    (exists (j : nat) a b,
        (i <= j)%nat /\ got !! j = Some a /\ expected !! j = Some b /\ a <> b /\
        (forall j', (i <= j' < j)%nat -> got !! j' = expected !! j') /\
        assert_vector_eq_loop got expected i r
        = Ok [DimensionMismatch (Z.of_nat j)]).
Proof.
  intros Hlen. induction r as [|r IH]; intros i Hi.
  - left. split; [|reflexivity]. rewrite !drop_ge by lia. reflexivity.
  - destruct (lookup_lt_is_Some_2 got i) as [a Ha]; [lia|].
    destruct (lookup_lt_is_Some_2 expected i) as [b Hb]; [lia|].
    simpl. rewrite Ha, Hb. destruct (decide (a = b)) as [->|Hne].
    + destruct (IH (S i)) as [[Hdrop Hrun]|(j & a' & b' & Hj & Ha' & Hb' & Hne & Hbefore & Hrun)];
        [lia| |].
      * left. split; [|exact Hrun].
        rewrite (drop_S _ _ _ Ha), (drop_S _ _ _ Hb), Hdrop. reflexivity.
      * right. exists j, a', b'. repeat split; try assumption; try lia.
        intros j' Hj'. destruct (decide (j' = i)) as [->|Hji]; [congruence|].
        apply Hbefore. lia.
    + right. exists i, a, b. repeat split; try assumption; lia.
Qed.

(** X16. [assert_vector_eq] records nothing if and only if the two vectors
    are equal.  Vectors of different lengths are reported by their sizes
    alone, without any element being compared (so no element is read past
    the end of the shorter one); vectors of one length that differ are
    reported by the first index at which they differ, and the comparison
    stops there. *)
Theorem assert_vector_eq_reports_first_difference (got expected : list Z) :
  (assert_vector_eq got expected = Ok [] <-> got = expected) /\
  (length got <> length expected ->
   assert_vector_eq got expected
   = Ok [SizeMismatch (Z.of_nat (length got)) (Z.of_nat (length expected))]) /\
  (length got = length expected -> got <> expected ->
   exists (j : nat) a b,
     got !! j = Some a /\ expected !! j = Some b /\ a <> b /\
     take j got = take j expected /\
     assert_vector_eq got expected = Ok [DimensionMismatch (Z.of_nat j)]).
Proof.
  assert (Hdiff : length got = length expected -> got <> expected ->
            exists (j : nat) a b,
              got !! j = Some a /\ expected !! j = Some b /\ a <> b /\
              take j got = take j expected /\
              assert_vector_eq got expected
              = Ok [DimensionMismatch (Z.of_nat j)]).
  { intros Hlen Hne. unfold assert_vector_eq. rewrite decide_True by exact Hlen.
    destruct (assert_vector_eq_loop_spec got expected Hlen (length got) 0)
      as [[Hdrop _]|(j & a & b & _ & Ha & Hb & Hab & Hbefore & Hrun)]; [lia| |].
    - rewrite !drop_0 in Hdrop. contradiction.
    - exists j, a, b. repeat split; try assumption.
      apply list_eq. intros k. destruct (decide (k < j)%nat) as [Hk|Hk].
      + rewrite !lookup_take_lt by exact Hk. apply Hbefore. lia.
      + rewrite !lookup_take_ge by lia. reflexivity. }
  split; [|split].
  - split.
    + intros Hrun. destruct (decide (length got = length expected)) as [Hlen|Hlen].
      * destruct (decide (got = expected)) as [Heq|Hne]; [exact Heq|].
        destruct (Hdiff Hlen Hne) as (j & a & b & _ & _ & _ & _ & Hrun').
        rewrite Hrun in Hrun'. discriminate.
      * unfold assert_vector_eq in Hrun. rewrite decide_False in Hrun by exact Hlen.
        discriminate.
    + intros <-. unfold assert_vector_eq. rewrite decide_True by reflexivity.
      destruct (assert_vector_eq_loop_spec got got eq_refl (length got) 0)
        as [[_ Hrun]|(j & a & b & _ & Ha & Hb & Hab & _)]; [lia|exact Hrun|].
      congruence.
  - intros Hlen. unfold assert_vector_eq. rewrite decide_False by exact Hlen.
    reflexivity.
  - exact Hdiff.
Qed.

Lemma assert_vector_eq_reports_first_difference_witness :
  assert_vector_eq [2; 3] [2; 3; 1] = Ok [SizeMismatch 2 3] /\
  exists (j : nat) a b,
    [2; 3; 4] !! j = Some a /\ [2; 5; 6] !! j = Some b /\ a <> b /\
    assert_vector_eq [2; 3; 4] [2; 5; 6] = Ok [DimensionMismatch (Z.of_nat j)].
Proof.
  split.
  - apply (assert_vector_eq_reports_first_difference [2; 3] [2; 3; 1]).
    simpl. lia.
  - destruct (assert_vector_eq_reports_first_difference [2; 3; 4] [2; 5; 6])
      as (_ & _ & Hdiff).
    destruct (Hdiff eq_refl ltac:(discriminate))
      as (j & a & b & Ha & Hb & Hne & _ & Hrun).
    exists j, a, b. repeat split; assumption.
Defined.

(** * Constructed storages are addressable in row-major order *)

Lemma scalar_at_run (T : DataType) (indices : list Z) (sv : StorageView)
  (p : ptr) (a : value) (m : machine) :
  index T indices sv = Ok p -> load (heap m) p = Some (Some a) ->
  scalar_at T indices sv m = Ok (a, m).
Proof.
  intros Hindex Hload. unfold scalar_at.
  destruct (_device sv); unfold DEVICE_DISPATCH, bind, lift;
    rewrite Hindex; unfold primitives.deref; rewrite ptr_add_0, Hload;
    reflexivity.
Qed.

(** X17. A storage constructed with a fill value can be read at every index
    vector within its shape: [scalar_at] accepts it and returns the fill
    value (for a shape whose element count fits [size_t]). *)
Theorem StorageView_fill_reads_back (shape_ : Shape) (T : DataType)
  (init_ : value) (device : Device) (indices : list Z) (m : machine) :
  product shape_ < 2 ^ SIZE_BITS ->
  indices <> [] -> in_shape indices shape_ ->
  exists sv m',
    StorageView_fill shape_ T init_ device m = Ok (sv, m') /\
    scalar_at T indices sv m' = Ok (init_, m').
Proof.
  intros Hp Hne Hin.
  destruct (resize_init_memory shape_ T device m)
    as (sv & m1 & Hresize & HT & _ & _ & Hsize & _ & Hshape & Hstrides & Hv
        & _ & _).
  rewrite <- Hsize in Hv.
  destruct (fill_cells init_ _ _ _ Hv) as (h' & Hwrite & Hcells & _).
  destruct (index_in_shape_run T indices sv) as [Hoff Hindex];
    try congruence.
  exists sv. eexists. split.
  - unfold StorageView_fill, bind. rewrite Hresize.
    apply (fill_run _ _ _ _ h'); [congruence|exact Hwrite].
  - apply (scalar_at_run _ _ _ _ _ _ Hindex). simpl. apply Hcells. exact Hoff.
Qed.

Lemma StorageView_fill_reads_back_witness :
  exists sv m',
    StorageView_fill [2; 3] DT_FLOAT 1 CPU empty_machine = Ok (sv, m') /\
    scalar_at DT_FLOAT [1; 2] sv m' = Ok (1, m').
Proof.
  apply (StorageView_fill_reads_back [2; 3] DT_FLOAT 1 CPU [1; 2] empty_machine);
    first [reflexivity | discriminate | exact view_2x3_in_shape].
Defined.

(** X18. A storage constructed from a [std::vector] lays the vector out in
    row-major order: at every index vector within the shape, [scalar_at]
    returns the element of the vector at position
    sum(indices[i] * product(shape[i+1..])). *)
Theorem StorageView_vector_is_row_major (WITH_CUDA : bool) (shape_ : Shape)
  (T : DataType) (init_ : vector) (device : Device) (indices : list Z)
  (a : value) (m : machine) :
  vector_size init_ = size shape_ ->
  valid_range (heap m) (vector_data init_) (vector_size init_) ->
  product shape_ < 2 ^ SIZE_BITS ->
  indices <> [] -> in_shape indices shape_ ->
  load (heap m)
    (ptr_add (vector_data init_) (flat_offset indices (strides shape_)))
  = Some (Some a) ->
  exists sv m',
    StorageView_vector WITH_CUDA shape_ T init_ device m = Ok (sv, m') /\
    scalar_at T indices sv m' = Ok (a, m').
Proof.
  intros Hn Hsrc Hp Hne Hin Ha.
  destruct (resize_init_memory shape_ T device m)
    as (sv & m1 & Hresize & HT & _ & _ & Hsize & _ & Hshape & Hstrides & Hdst
        & Hkeep & Hold).
  assert (Hn' : vector_size init_ = _size sv) by congruence.
  rewrite <- Hn in Hdst.
  destruct (copy_cells (vector_data init_) (vector_size init_) sv m1
              (Hkeep _ _ Hsrc) Hdst)
    as (cs & h' & Hread & Hwrite & Hcells & _).
  destruct (index_in_shape_run T indices sv) as [Hoff Hindex];
    try congruence.
  rewrite Hshape in Hoff, Hindex.
  exists sv. eexists. split.
  - unfold StorageView_vector, bind. rewrite Hresize.
    apply (copy_from_run _ _ _ _ _ _ _ cs h'); [congruence|assumption..].
  - apply (scalar_at_run _ _ _ _ _ _ Hindex). simpl.
    rewrite Hcells by lia. apply (Hold _ _ Ha).
Qed.

Lemma StorageView_vector_is_row_major_witness :
  exists sv m',
    StorageView_vector false [2; 1] DT_FLOAT vector_7_8 CPU machine_vector
    = Ok (sv, m') /\
    scalar_at DT_FLOAT [1; 0] sv m' = Ok (8, m').
Proof.
  apply (StorageView_vector_is_row_major false [2; 1] DT_FLOAT vector_7_8 CPU
           [1; 0] 8 machine_vector);
    first [reflexivity | discriminate | exact machine_vector_source
          | repeat constructor; simpl; lia].
Defined.
